(** * threadgoon V4.1: the download pipeline

    A shallow embedding of [src/threadgoon-V4.1.py]: the file-name helpers
    ([sanitize_filename], [get_unique_filepath]), the listing fetch
    ([get_thread_data]), the per-listing downloader ([download_webms]) and
    the completion loop of [main].

    - A Python [str] is a [string]; its characters are the 8-bit [ascii].
    - A decoded JSON value is a [json]; numbers are integers.
    - The output directory tree is a finite map from the path strings the
      program uses to nodes (a directory, or a file with its bytes).
    - Exceptions are an explicit result type threaded, with the state,
      through a small monad; [try_except] is the [try] statement.
    - The network, the other processes and the faults of the file system
      are oracles of an environment record. Other processes act on the
      tree while a request is in flight, which is where the main thread
      waits; [download_webms] itself runs in the main thread only.
    - Progress bars and [print] are left out; every [logger] call appends
      one entry to the log. *)

From Stdlib Require Import Ascii String List ZArith Lia Bool.
From Stdlib.Strings Require Import Byte.
From Stdlib Require Import Sorted.
From stdpp Require Import base option list gmap strings pretty.

Local Open Scope string_scope.
Local Open Scope list_scope.
Local Open Scope nat_scope.

(** ** Python strings *)

Definition chars (s : string) : list ascii := list_ascii_of_string s.
Definition str (l : list ascii) : string := string_of_list_ascii l.

(** [s.startswith(c)] and [s.endswith(c)] for a one-character [c]. *)
Definition startswith (s : string) (c : ascii) : bool :=
  match s with
  | String a _ => bool_decide (a = c)
  | EmptyString => false
  end.

Definition endswith (s : string) (c : ascii) : bool :=
  match last (chars s) with
  | Some a => bool_decide (a = c)
  | None => false
  end.

(** ** [sanitize_filename] (lines 31-38) *)

(** The character class of the first [re.sub]: the nine characters
    < > : / \ | ? * and the double quote (code 34). *)
Definition is_reserved (c : ascii) : bool :=
  match c with
  | "<" | ">" | ":" | "034" | "/" | "\" | "|" | "?" | "*" => true
  | _ => false
  end%char.

(** The character class of the second [re.sub]: codes 0x00-0x1f and 0x7f. *)
Definition is_control (c : ascii) : bool :=
  let n := nat_of_ascii c in (n <=? 31) || (n =? 127).

(** The characters of [name.strip('. ')]. *)
Definition is_strip (c : ascii) : bool :=
  match c with
  | "." | " " => true
  | _ => false
  end%char.

Definition sub_reserved (l : list ascii) : list ascii :=
  map (fun c => if is_reserved c then "_"%char else c) l.

Fixpoint lstrip (l : list ascii) : list ascii :=
  match l with
  | c :: l' => if is_strip c then lstrip l' else l
  | [] => []
  end.

Definition strip (l : list ascii) : list ascii :=
  rev (lstrip (rev (lstrip l))).

Definition sub_control (l : list ascii) : list ascii :=
  List.filter (fun c => negb (is_control c)) l.

Definition unnamed : string := "unnamed".

(** The body, statement by statement; the last line parses as
    [name[:200] if len(name) > 200 else (name or unnamed)]. *)
Definition sanitize_filename (name : string) : string :=
  match name with
  | EmptyString => unnamed
  | _ =>
    let name1 := sub_reserved (chars name) in
    let name2 := strip name1 in
    let name3 := sub_control name2 in
    if 200 <? length name3 then str (firstn 200 name3)
    else match name3 with
         | [] => unnamed
         | _ => str name3
         end
  end.

(** The algorithm as the specification words it: reserved and control
    characters alike become an underscore, then strip, truncate, and the
    placeholder for an empty result. *)
Definition sub_illegal (l : list ascii) : list ascii :=
  map (fun c => if is_reserved c || is_control c then "_"%char else c) l.

Definition sanitize_spec (name : string) : string :=
  let r := firstn 200 (strip (sub_illegal (chars name))) in
  match r with
  | [] => unnamed
  | _ => str r
  end.

(** The algorithm of the code in the same wording: only the reserved
    characters become an underscore; the control characters are deleted,
    and they are deleted after the strip. *)
Definition sanitize_amended (name : string) : string :=
  let r := firstn 200 (sub_control (strip (sub_reserved (chars name)))) in
  match r with
  | [] => unnamed
  | _ => str r
  end.

(** ** Decoded JSON values (the results of [json.loads])

    Numbers are integers; a JSON object is the list of its items, looked up
    by key. *)

#[local] Set Warnings "-register-all".
Inductive json : Type :=
| JNull
| JBool (b : bool)
| JNum (z : Z)
| JStr (s : string)
| JArr (items : list json)
| JObj (items : list (string * json)).

Abbreviation dict := (list (string * json)).

(** Python truthiness, as tested by [if not tim]. *)
Definition truthy (v : json) : bool :=
  match v with
  | JNull => false
  | JBool b => b
  | JNum z => negb (z =? 0)%Z
  | JStr s => negb (bool_decide (s = EmptyString))
  | JArr l => negb (bool_decide (l = []))
  | JObj l => match l with [] => false | _ => true end
  end.

(** [d.get(key)]: [None] when the key is absent. *)
Fixpoint dict_get (d : dict) (key : string) : option json :=
  match d with
  | [] => None
  | (k, v) :: d' => if bool_decide (k = key) then Some v else dict_get d' key
  end.

(** [d.get(key, default)]. *)
Definition dict_get_default (d : dict) (key : string) (default : json) : json :=
  match dict_get d key with
  | Some v => v
  | None => default
  end.

(** [v == '.webm'] for a decoded value [v]. *)
Definition eq_str (v : json) (s : string) : bool :=
  match v with
  | JStr s' => bool_decide (s' = s)
  | _ => false
  end.

(** ** Exceptions *)

Inductive exn : Type :=
| Timeout
| RequestException
| JSONDecodeError
| FileExistsError
| OSError
| AttributeError
| TypeError
| ValueError
| UnboundLocalError.

(** [isinstance e cls]: the class of [e] is [cls] or one of its subclasses.
    In [requests], [Timeout] derives from [RequestException], which derives
    from [IOError], an alias of [OSError]. *)
Definition isinstance (e cls : exn) : bool :=
  match cls, e with
  | Timeout, Timeout => true
  | RequestException, (Timeout | RequestException) => true
  | OSError, (Timeout | RequestException | FileExistsError | OSError) => true
  | FileExistsError, FileExistsError => true
  | JSONDecodeError, JSONDecodeError => true
  | ValueError, (JSONDecodeError | ValueError) => true
  | AttributeError, AttributeError => true
  | TypeError, TypeError => true
  | UnboundLocalError, UnboundLocalError => true
  | _, _ => false
  end.

Inductive result (A : Type) : Type :=
| Ok (a : A)
| Raise (e : exn).
Arguments Ok {A} a.
Arguments Raise {A} e.

(** ** The world: directory tree, log, requests issued

    The tree maps a path to a directory or to a regular file with its
    content. Symbolic links are not part of it: a path is either absent,
    and then [os.path.exists] is False and an exclusive open may create
    it, or present, and then both see it. A dangling link, which
    [os.path.exists] does not see but [open(p, 'xb')] refuses with
    FileExistsError, has no counterpart in this tree. *)

Inductive node : Type :=
| Dir
| File (content : list byte).

(** URLs are kept structured: [thread_url id] stands for
    [BASE_URL/BOARD/thread/id.json] and [file_url tim] for
    [IMAGE_URL/BOARD/tim.webm], with [tim] as formatted into the f-string. *)
Inductive url : Type :=
| thread_url (thread_id : Z)
| file_url (tim : json).

(** One constructor per [logger] call of the source. *)
Inductive log_entry : Type :=
| LogFetchTimeout (thread_id : Z)
| LogFetchError (thread_id : Z)
| LogParseError (thread_id : Z)
| LogNoWebms (thread_title : string)
| LogMkdirError (safe_title : string)
| LogDownloading (n : nat) (thread_title : string)
| LogFileExists (file_path : string)
| LogNoTim
| LogDownloaded (file_path : string)
| LogCreatedByOther (file_path : string)
| LogTimeout (u : url)
| LogDownloadError (u : url)
| LogUnexpected (e : exn)
| LogProcessing (thread_title : string) (thread_id : Z)
| LogThreadError (thread_title : string) (thread_id : Z) (e : exn)
| LogSessionCompleted (success failed : nat).

(** [filename] is the local variable of [download_webms] assigned on line
    130; [None] while it is unbound. *)
Record state : Type := mkState {
  fs : gmap string node;
  log : list log_entry;
  requests : list url;
  filename : option string
}.

Definition set_fs (f : gmap string node -> gmap string node) (s : state) : state :=
  mkState (f (fs s)) (log s) (requests s) (filename s).

(** ** The environment: network and file-system faults *)

Inductive cl_header : Type :=
| CLAbsent                 (* no content-length header *)
| CLInt (z : Z)            (* a header that [int] parses *)
| CLMalformed.             (* a header on which [int] raises ValueError *)

Inductive stream_end : Type :=
| StreamOk
| StreamTimeout
| StreamError.

(** The answer to a streamed GET: [requests.get] or [raise_for_status]
    raises, or a response whose body arrives as [body] and then ends. *)
Inductive http_result : Type :=
| GetTimeout
| GetError
| GetOk (content_length : cl_header) (body : list (list byte)) (fin : stream_end).

(** The answer to a listing fetch: the body text when the request succeeds,
    decoded where it is JSON. *)
Inductive listing_response : Type :=
| ListingTimeout
| ListingError
| ListingText (decoded : option json).

(** Oracles. [http_get n u] answers the request issued when [n] requests
    were issued before it; [interfere n] is what other processes do to the
    directory tree while that request is in flight. *)
Record env : Type := mkEnv {
  http_get : nat -> url -> http_result;
  listing : Z -> listing_response;
  interfere : nat -> gmap string node -> gmap string node;
  makedirs_denied : string -> bool;
  open_denied : string -> bool;
  write_denied : string -> nat -> bool;
  remove_denied : string -> bool
}.

(** ** A state and exception monad *)

Definition M (A : Type) : Type := state -> result A * state.

Definition ret {A} (a : A) : M A := fun s => (Ok a, s).

Definition bind {A B} (m : M A) (k : A -> M B) : M B :=
  fun s => match m s with
           | (Ok a, s') => k a s'
           | (Raise e, s') => (Raise e, s')
           end.

Definition raise {A} (e : exn) : M A := fun s => (Raise e, s).

(** [try: m except ...]: [handler e] is the body of the first clause that
    matches [e], [None] when no clause does. An exception raised by the
    handler itself is not handled here. *)
Definition try_except {A} (m : M A) (handler : exn -> option (M A)) : M A :=
  fun s => match m s with
           | (Ok a, s') => (Ok a, s')
           | (Raise e, s') =>
             match handler e with
             | Some h => h s'
             | None => (Raise e, s')
             end
           end.

Declare Scope py_scope.
Delimit Scope py_scope with py.
Notation "x <- m ;; k" := (bind m (fun x => k))
  (at level 100, m at next level, right associativity) : py_scope.
Notation "m ;;; k" := (bind m (fun _ => k))
  (at level 100, right associativity) : py_scope.
Local Open Scope py_scope.

Definition get_state : M state := fun s => (Ok s, s).
Definition modify (f : state -> state) : M unit := fun s => (Ok tt, f s).

Definition logger (e : log_entry) : M unit :=
  modify (fun s => mkState (fs s) (log s ++ [e]) (requests s) (filename s)).

(** ** File-system primitives *)

(** [os.path.exists]. *)
Definition path_exists (t : gmap string node) (p : string) : bool :=
  bool_decide (is_Some (t !! p)).

(** [os.path.join] of two components (posixpath). *)
Definition path_join (directory name : string) : string :=
  if startswith name "/" then name
  else if bool_decide (directory = EmptyString) || endswith directory "/"
       then directory +:+ name
       else directory +:+ "/" +:+ name.

(** [os.path.basename]: what follows the last slash. *)
Fixpoint basename_chars (acc l : list ascii) : list ascii :=
  match l with
  | [] => acc
  | c :: l' => if bool_decide (c = "/"%char) then basename_chars [] l'
               else basename_chars (acc ++ [c]) l'
  end.

Definition basename (p : string) : string := str (basename_chars [] (chars p)).

(** [os.makedirs(p, exist_ok=True)] for a one-component [p]: an existing
    directory is accepted, an existing file raises FileExistsError. *)
Definition makedirs (E : env) (p : string) : M unit :=
  fun s => match fs s !! p with
           | Some Dir => (Ok tt, s)
           | Some (File _) => (Raise FileExistsError, s)
           | None => if makedirs_denied E p then (Raise OSError, s)
                     else (Ok tt, set_fs (insert p Dir) s)
           end.

(** [open(p, 'xb')]: exclusive creation of an empty file. On a tree of
    directories and regular files the open raises FileExistsError exactly
    when [path_exists] holds. *)
Definition open_xb (E : env) (p : string) : M unit :=
  fun s => if path_exists (fs s) p then (Raise FileExistsError, s)
           else if open_denied E p then (Raise OSError, s)
           else (Ok tt, set_fs (insert p (File [])) s).

(** [f.write(chunk)] on the file opened at [p]. *)
Definition write (E : env) (p : string) (chunk : list byte) : M unit :=
  fun s => match fs s !! p with
           | Some (File content) =>
             if write_denied E p (length content) then (Raise OSError, s)
             else (Ok tt, set_fs (insert p (File (content ++ chunk))) s)
           | _ => (Raise OSError, s)
           end.

(** [os.remove(p)]. *)
Definition remove (E : env) (p : string) : M unit :=
  fun s => match fs s !! p with
           | Some (File _) =>
             if remove_denied E p then (Raise OSError, s)
             else (Ok tt, set_fs (delete p) s)
           | _ => (Raise OSError, s)
           end.

(** ** [get_unique_filepath] (lines 41-49) *)

(** The path tried for [counter]. *)
Definition candidate (directory base_filename extension : string) (counter : nat)
  : string :=
  path_join directory (base_filename +:+ "_" +:+ pretty counter +:+ extension).

(** The [while] loop, one test of [os.path.exists] per unit of fuel. *)
Fixpoint unique_loop (fuel : nat) (t : gmap string node)
    (directory base_filename extension file_path : string) (counter : nat)
  : option string :=
  match fuel with
  | 0 => None
  | S fuel' =>
    if path_exists t file_path
    then unique_loop fuel' t directory base_filename extension
           (candidate directory base_filename extension counter) (S counter)
    else Some file_path
  end.

(** The fuel [size t + 2] always suffices ([get_unique_filepath_loop]); the
    fall-back of the [match] is never taken. *)
Definition get_unique_filepath (t : gmap string node)
    (directory base_filename extension : string) : string :=
  let file_path := path_join directory (base_filename +:+ extension) in
  if path_exists t file_path then
    match unique_loop (size t + 2) t directory base_filename extension
            file_path 1 with
    | Some p => p
    | None => file_path
    end
  else file_path.

(** ** [get_thread_data] (lines 72-87)

    Runs in a worker thread: its log lines are returned apart from the
    state of the main thread. Every exception is logged and re-raised. *)
Definition get_thread_data (E : env) (thread_id : Z)
  : list log_entry * result json :=
  match listing E thread_id with
  | ListingTimeout => ([LogFetchTimeout thread_id], Raise Timeout)
  | ListingError => ([LogFetchError thread_id], Raise RequestException)
  | ListingText None => ([LogParseError thread_id], Raise JSONDecodeError)
  | ListingText (Some v) => ([], Ok v)
  end.

(** ** [download_webms] (lines 90-178) *)

(** How one iteration of the [for] loop ended. The source reports through
    log lines and [continue]; the tag names the branch taken:
    [Downloaded] the fall-through after line 148, [Skipped] the [continue]
    of line 116 or 152, [Dropped] the [continue] of line 121, [Failed] the
    [continue] of line 163, 173 or 178. *)
Inductive outcome : Type :=
| Downloaded (file_path : string) (bytes_written : nat)
| Skipped (file_path : string)
| Dropped
| Failed (e : exn).

(** How a call of [download_webms] ended: the [return] of line 97, the
    [return] of line 105, or the end of the loop. *)
Inductive dw_result : Type :=
| NoWebms
| MkdirFailed
| Processed (outcomes : list outcome).

(** Iterating a decoded value: a list yields its elements, a dict its keys,
    a string its characters; anything else is not iterable. *)
Definition py_iter (v : json) : M (list json) :=
  match v with
  | JArr l => ret l
  | JObj kvs => ret (map (fun kv => JStr (fst kv)) kvs)
  | JStr s => ret (map (fun c => JStr (String c EmptyString)) (chars s))
  | _ => raise TypeError
  end.

(** [thread_data.get('posts', [])]: only a dict has [get]. *)
Definition get_posts (thread_data : json) : M json :=
  match thread_data with
  | JObj kvs => ret (dict_get_default kvs "posts" (JArr []))
  | _ => raise AttributeError
  end.

(** The comprehension of lines 91-92: it raises at the first element
    that has no [get]. *)
Fixpoint select_webms (posts : list json) : M (list dict) :=
  match posts with
  | [] => ret []
  | JObj post :: rest =>
    webms <- select_webms rest ;;
    ret (if eq_str (dict_get_default post "ext" JNull) ".webm"
         then post :: webms else webms)
  | _ :: _ => raise AttributeError
  end.

(** [sanitize_filename] applied to a decoded value: a falsy value takes
    the early return, [re.sub] rejects a truthy value that is no string. *)
Definition sanitize_filename_value (v : json) : M string :=
  if negb (truthy v) then ret unnamed
  else match v with
       | JStr s => ret (sanitize_filename s)
       | _ => raise TypeError
       end.

(** [requests.get(file_url, stream=True, ...)] and [raise_for_status]. *)
Definition requests_get (E : env) (u : url) : M (cl_header * list (list byte) * stream_end) :=
  fun s =>
    let n := length (requests s) in
    let s' := mkState (interfere E n (fs s)) (log s) (requests s ++ [u]) (filename s) in
    match http_get E n u with
    | GetTimeout => (Raise Timeout, s')
    | GetError => (Raise RequestException, s')
    | GetOk cl body fin => (Ok (cl, body, fin), s')
    end.

(** [int(response.headers.get('content-length', 0))]. *)
Definition content_length_int (cl : cl_header) : M Z :=
  match cl with
  | CLAbsent => ret 0%Z
  | CLInt z => ret z
  | CLMalformed => raise ValueError
  end.

(** The loop over [response.iter_content]: empty chunks are not written;
    returns the number of bytes written. Both branches of the test on
    [total_size] run this loop, with or without a progress bar. *)
Fixpoint iter_content (E : env) (file_path : string) (body : list (list byte))
    (fin : stream_end) (written : nat) : M nat :=
  match body with
  | [] =>
    match fin with
    | StreamOk => ret written
    | StreamTimeout => raise Timeout
    | StreamError => raise RequestException
    end
  | chunk :: body' =>
    match chunk with
    | [] => iter_content E file_path body' fin written
    | _ => write E file_path chunk ;;;
           iter_content E file_path body' fin (written + length chunk)
    end
  end.

(** Lines 158-162 and 168-172: best-effort removal of the partial file. *)
Definition cleanup (E : env) (file_path : string) : M unit :=
  s <- get_state ;;
  if path_exists (fs s) file_path
  then try_except (remove E file_path)
         (fun e => if isinstance e OSError then Some (ret tt) else None)
  else ret tt.

(** Reading the local [filename] in the f-string of line 156 or 167. *)
Definition read_filename : M string :=
  s <- get_state ;;
  match filename s with
  | Some f => ret f
  | None => raise UnboundLocalError
  end.

Definition set_filename (f : string) : M unit :=
  modify (fun s => mkState (fs s) (log s) (requests s) (Some f)).

(** The handlers of lines 154-173. *)
Definition transport_handler (E : env) (u : url) (file_path : string) (e : exn)
  : option (M outcome) :=
  if isinstance e Timeout then
    Some (logger (LogTimeout u) ;;;
          read_filename ;;;
          cleanup E file_path ;;;
          ret (Failed e))
  else if isinstance e RequestException then
    Some (logger (LogDownloadError u) ;;;
          read_filename ;;;
          cleanup E file_path ;;;
          ret (Failed e))
  else None.

(** Lines 132-152: exclusive creation, the streamed write, and the handler
    of a lost race. *)
Definition store_response (E : env) (file_path : string)
    (body : list (list byte)) (fin : stream_end) : M outcome :=
  try_except
    (open_xb E file_path ;;;
     n <- iter_content E file_path body fin 0 ;;
     logger (LogDownloaded file_path) ;;;
     ret (Downloaded file_path n))
    (fun e => if isinstance e FileExistsError
              then Some (logger (LogCreatedByOther file_path) ;;;
                         ret (Skipped file_path))
              else None).

(** Lines 125-173: the request, the write and the transport handlers. *)
Definition attempt (E : env) (u : url) (file_path : string) : M outcome :=
  try_except
    (response <- requests_get E u ;;
     let '(cl, body, fin) := response in
     total_size <- content_length_int cl ;;
     set_filename (basename file_path) ;;;
     store_response E file_path body fin)
    (transport_handler E u file_path).

(** The body of the [for] loop, lines 110-178. *)
Definition process_webm (E : env) (safe_title : string) (webm : dict) : M outcome :=
  try_except
    (base_filename <-
       sanitize_filename_value (dict_get_default webm "filename" (JStr unnamed)) ;;
     s <- get_state ;;
     let file_path := get_unique_filepath (fs s) safe_title base_filename ".webm" in
     if path_exists (fs s) file_path then
       logger (LogFileExists file_path) ;;;
       ret (Skipped file_path)
     else
       let tim := dict_get_default webm "tim" JNull in
       if negb (truthy tim) then
         logger LogNoTim ;;;
         ret Dropped
       else
         attempt E (file_url tim) file_path)
    (fun e => Some (logger (LogUnexpected e) ;;; ret (Failed e))).

(** The [for] loop of line 109. *)
Fixpoint for_each_webm (E : env) (safe_title : string) (webms : list dict)
  : M (list outcome) :=
  match webms with
  | [] => ret []
  | webm :: rest =>
    o <- process_webm E safe_title webm ;;
    os <- for_each_webm E safe_title rest ;;
    ret (o :: os)
  end.

(** The webm posts of a listing, lines 91-92. *)
Definition extract_webms (thread_data : json) : M (list dict) :=
  posts <- get_posts thread_data ;;
  items <- py_iter posts ;;
  select_webms items.

Definition download_webms (E : env) (thread_data : json) (thread_title : string)
  : M dw_result :=
  modify (fun s => mkState (fs s) (log s) (requests s) None) ;;;
  webms <- extract_webms thread_data ;;
  match webms with
  | [] => logger (LogNoWebms thread_title) ;;; ret NoWebms
  | _ =>
    let safe_title := sanitize_filename thread_title in
    created <- try_except (makedirs E safe_title ;;; ret true)
                 (fun e => if isinstance e OSError
                           then Some (logger (LogMkdirError safe_title) ;;; ret false)
                           else None) ;;
    if created : bool then
      logger (LogDownloading (length webms) thread_title) ;;;
      outcomes <- for_each_webm E safe_title webms ;;
      ret (Processed outcomes)
    else ret MkdirFailed
  end.

(** ** The completion loop of [main] (lines 252-276) *)

(** The terminal state of a listing: [Done] when line 264 counted it,
    [Errored] when line 269 did. *)
Inductive listing_state : Type :=
| Done (r : dw_result)
| Errored (e : exn).

Record tally : Type := mkTally {
  successful_downloads : nat;
  failed_downloads : nat;
  report : list (Z * listing_state)
}.

(** A completed future with the pair [futures[future]]. *)
Definition future : Type := Z * string * result json.

(** [future.result()]. *)
Definition future_result (r : result json) : M json :=
  match r with
  | Ok v => ret v
  | Raise e => raise e
  end.

(** The body of the loop over [as_completed(futures)], lines 256-269. *)
Definition process_future (E : env) (t : tally) (f : future) : M tally :=
  let '(thread_id, thread_title, r) := f in
  try_except
    (thread_data <- future_result r ;;
     logger (LogProcessing thread_title thread_id) ;;;
     d <- download_webms E thread_data thread_title ;;
     ret (mkTally (successful_downloads t + 1) (failed_downloads t)
            (report t ++ [(thread_id, Done d)])))
    (fun e => Some (logger (LogThreadError thread_title thread_id e) ;;;
                    ret (mkTally (successful_downloads t) (failed_downloads t + 1)
                           (report t ++ [(thread_id, Errored e)])))).

Fixpoint process_futures (E : env) (t : tally) (futs : list future) : M tally :=
  match futs with
  | [] => ret t
  | f :: rest => t' <- process_future E t f ;; process_futures E t' rest
  end.

(** [executor.submit(get_thread_data, thread_id)] for one selected listing. *)
Definition submit (E : env) (sel : Z * string) : future :=
  (fst sel, snd sel, snd (get_thread_data E (fst sel))).

(** Lines 252-276: the loop over the completed futures and the summary. *)
Definition session (E : env) (futs : list future) : M tally :=
  t <- process_futures E (mkTally 0 0 []) futs ;;
  logger (LogSessionCompleted (successful_downloads t) (failed_downloads t)) ;;;
  ret t.

(** The session from line 245 on. [completed] is the selection in the
    order in which [as_completed] yields its futures. *)
Definition run (E : env) (completed : list (Z * string)) : M tally :=
  session E (map (submit E) completed).

Definition initial (t : gmap string node) : state := mkState t [] [] None.


(** ** Vocabulary of the statements *)

(** A character outside the reserved class. *)
Definition clean (c : ascii) : Prop := is_reserved c = false.

(** [webm.get('tim')]. *)
Definition tim_of (webm : dict) : json := dict_get_default webm "tim" JNull.

(** The three outcomes of a download attempt. *)
Definition terminal (o : outcome) : Prop :=
  match o with
  | Dropped => False
  | _ => True
  end.

(** The exception with which a stream ends, or the byte count. *)
Definition stream_result (fin : stream_end) (n : nat) : result nat :=
  match fin with
  | StreamOk => Ok n
  | StreamTimeout => Raise Timeout
  | StreamError => Raise RequestException
  end.

(** Whether [makedirs] succeeds on [p] in the tree [t]. *)
Definition can_makedirs (E : env) (t : gmap string node) (p : string) : bool :=
  match t !! p with
  | Some Dir => true
  | Some (File _) => false
  | None => negb (makedirs_denied E p)
  end.

(** The webm posts of a payload, or the exception of the comprehension;
    [extract_webms] does not touch the state ([extract_webms_pure]). *)
Definition payload_webms (thread_data : json) : result (list dict) :=
  fst (extract_webms thread_data (initial ∅)).

Definition future_id (f : future) : Z := fst (fst f).
Definition future_payload (f : future) : result json := snd f.

Definition is_done (en : Z * listing_state) : bool :=
  match snd en with Done _ => true | Errored _ => false end.
Definition is_errored (en : Z * listing_state) : bool :=
  match snd en with Done _ => false | Errored _ => true end.

(** The log, the requests issued and the local [filename] are the same in
    both states. *)
Definition same_channel (s s' : state) : Prop :=
  log s' = log s /\ requests s' = requests s /\ filename s' = filename s.

(** The log entry of a failed transfer. *)
Definition transport_entry (fin : stream_end) (u : url) : list log_entry :=
  match fin with
  | StreamOk => []
  | StreamTimeout => [LogTimeout u]
  | StreamError => [LogDownloadError u]
  end.

(** The outcome allowed for a post: one of the three terminal ones when
    its [tim] is truthy; otherwise it is dropped, or the sanitizer raised
    on its name before the test of [tim]. *)
Definition outcome_of_post (webm : dict) (o : outcome) : Prop :=
  if truthy (tim_of webm) then terminal o
  else o = Dropped \/ o = Failed TypeError.

(** The posts that lead to a download attempt, and their URLs. *)
Definition tasks (webms : list dict) : list dict :=
  List.filter (fun webm => truthy (tim_of webm)) webms.

Definition task_urls (webms : list dict) : list url :=
  map (fun webm => file_url (tim_of webm)) (tasks webms).

(** The terminal state of a listing as a function of its fetch and of the
    shape of its payload alone. *)
Definition disposition (f : future) (st : listing_state) : Prop :=
  match future_payload f with
  | Raise e => st = Errored e
  | Ok thread_data =>
    match payload_webms thread_data with
    | Ok _ => exists d, st = Done d
    | Raise e => st = Errored e
    end
  end.

Definition entry_of (f : future) (en : Z * listing_state) : Prop :=
  fst en = future_id f /\ disposition f (snd en).

Definition count_done (entries : list (Z * listing_state)) : nat :=
  length (List.filter is_done entries).
Definition count_errored (entries : list (Z * listing_state)) : nat :=
  length (List.filter is_errored entries).

(** The tally after one more entry. *)
Definition tally_add (t : tally) (en : Z * listing_state) : tally :=
  mkTally (successful_downloads t + (if is_done en then 1 else 0))
          (failed_downloads t + (if is_errored en then 1 else 0))
          (report t ++ [en]).

(** ** Concrete inputs of the examples *)

(** A webm post named a with the given [tim]. *)
Definition post_a (tim : json) : dict :=
  [("ext", JStr ".webm"); ("filename", JStr "a"); ("tim", tim)].

Definition payload (posts : list dict) : json :=
  JObj [("posts", JArr (map JObj posts))].

(** An environment without faults and without other writers. *)
Definition calm (h : nat -> url -> http_result) (l : Z -> listing_response) : env :=
  mkEnv h l (fun _ t => t) (fun _ => false) (fun _ => false)
    (fun _ _ => false) (fun _ => false).

(** The same with [os.remove] failing, and with [f.write] failing once
    one byte is in the file. *)
Definition calm_no_remove (h : nat -> url -> http_result) : env :=
  mkEnv h (fun _ => ListingError) (fun _ t => t) (fun _ => false)
    (fun _ => false) (fun _ _ => false) (fun _ => true).

Definition calm_disk_full (h : nat -> url -> http_result) : env :=
  mkEnv h (fun _ => ListingError) (fun _ t => t) (fun _ => false)
    (fun _ => false) (fun _ n => 1 <=? n) (fun _ => false).

(** Another writer creates t/a.webm while the request is in flight. *)
Definition racing (h : nat -> url -> http_result) : env :=
  mkEnv h (fun _ => ListingError)
    (fun _ t => <["t/a.webm" := File ["o"%byte]]> t)
    (fun _ => false) (fun _ => false) (fun _ _ => false) (fun _ => false).

(** One chunk, then the end of the body. *)
Definition serve (fin : stream_end) : nat -> url -> http_result :=
  fun _ _ => GetOk CLAbsent [["x"%byte]] fin.

(** Two chunks, then the end of the body. *)
Definition serve2 (fin : stream_end) : nat -> url -> http_result :=
  fun _ _ => GetOk CLAbsent [["x"%byte]; ["y"%byte]] fin.

(** The directory t, already created. *)
Definition tree_t : gmap string node := {["t" := Dir]}.

(** A listing t with id 7 whose payload holds the given posts. *)
Definition listing_of (posts : list dict) : Z -> listing_response :=
  fun _ => ListingText (Some (payload posts)).

Definition selection : list (Z * string) := [(7%Z, "t")].

(** Every transfer succeeds. *)
Definition env_ok : env := calm (serve StreamOk) (listing_of [post_a (JNum 1)]).

(** Every transfer breaks after its first chunk. *)
Definition env_broken : env :=
  calm (serve StreamError) (listing_of [post_a (JNum 1); post_a (JNum 2)]).

(** The post a without its [tim] field. *)
Definition post_a_no_tim : dict := [("ext", JStr ".webm"); ("filename", JStr "a")].

(** The directory name t taken by a regular file. *)
Definition tree_file_t : gmap string node := {["t" := File []]}.

(** Two completed futures: the fetch of listing 1 timed out, listing 2
    was fetched. *)
Definition two_futures : list future :=
  [(1%Z, "a", Raise Timeout); (2%Z, "t", Ok (payload [post_a (JNum 1)]))].

(** The tree after a first, complete run over the listing t. *)
Definition tree_done : gmap string node :=
  <["t/a.webm" := File ["x"%byte]]> tree_t.

(** ** Vocabulary of the further statements *)

(** No other process touches the tree. *)
Definition quiet (E : env) : Prop := forall n t, interfere E n t = t.

(** The paths and byte counts of the downloads among the outcomes. *)
Definition downloaded (outs : list outcome) : list (string * nat) :=
  flat_map (fun o => match o with
                     | Downloaded p n => [(p, n)]
                     | _ => []
                     end) outs.

(** The test of the comprehension of lines 91-92 on one post. *)
Definition is_webm_post (post : dict) : bool :=
  eq_str (dict_get_default post "ext" JNull) ".webm".

(** Whether a decoded value is a dict. *)
Definition is_dict (v : json) : bool :=
  match v with
  | JObj _ => true
  | _ => false
  end.

(** A future whose fetch returned a payload on which the comprehension
    of lines 91-92 does not raise. *)
Definition well_fetched (f : future) : bool :=
  match future_payload f with
  | Ok thread_data =>
    match payload_webms thread_data with
    | Ok _ => true
    | Raise _ => false
    end
  | Raise _ => false
  end.

(** The entry of the report that the answer to a listing fetch leads to. *)
Definition entry_of_response (E : env) (sel : Z * string)
    (en : Z * listing_state) : Prop :=
  fst en = fst sel
  /\ match listing E (fst sel) with
     | ListingTimeout => snd en = Errored Timeout
     | ListingError => snd en = Errored RequestException
     | ListingText None => snd en = Errored JSONDecodeError
     | ListingText (Some thread_data) =>
       match payload_webms thread_data with
       | Ok _ => exists d, snd en = Done d
       | Raise e => snd en = Errored e
       end
     end.

(** The log entry of a request that raised. *)
Definition request_entry (r : http_result) (u : url) : list log_entry :=
  match r with
  | GetTimeout => [LogTimeout u]
  | GetError => [LogDownloadError u]
  | GetOk _ _ _ => []
  end.

Definition request_exn (r : http_result) : exn :=
  match r with
  | GetTimeout => Timeout
  | _ => RequestException
  end.

(** What one iteration may do to the tree [t] when no other process
    interferes: nothing, or the creation of one file at a path that was
    free; a download is such a creation, of the reported size. *)
Definition tree_step (t t' : gmap string node) (o : outcome) : Prop :=
  (t' = t /\ forall q n, o <> Downloaded q n)
  \/ (exists p c, t !! p = None /\ t' = <[p := File c]> t
                  /\ forall q n, o = Downloaded q n -> q = p /\ length c = n).

(** A download recorded in the outcomes: the path was free in [t] and
    holds a file of the reported size in [t']. *)
Definition download_stored (t t' : gmap string node) (pn : string * nat) : Prop :=
  t !! fst pn = None
  /\ exists c, t' !! fst pn = Some (File c) /\ length c = snd pn.

(** ** The catalog and the selection ([fetch_catalog], lines 52-69, and
    lines 182-240 of [main])

    The log of this part has entries of its own, one constructor per
    [logger] call. [sys.exit] is a result, not an exception of [exn]: the
    handlers of [main] let [SystemExit] through. *)

Inductive front_error : Type :=
| Unexpected (e : exn)
| IndexError.

Inductive front_entry : Type :=
| LogFetchingCatalog
| LogCatalogTimeout
| LogCatalogError
| LogCatalogParseError
| LogNoThreads
| LogNoSelection
| LogInvalidChoiceFormat (choice : string)
| LogInvalidChoices (invalid_choices : list Z) (max_index : Z)
| LogUserSelected (choice_list : list Z)
| LogInterrupted
| LogCritical (e : front_error).

Inductive or_exit (A : Type) : Type :=
| Value (a : A)
| SysExit (code : Z).
Arguments Value {A} a.
Arguments SysExit {A} code.

(** [fetch_catalog]: the decoded catalog, or [sys.exit(1)] after the log
    line of the failure. *)
Definition fetch_catalog (catalog : listing_response)
  : list front_entry * or_exit json :=
  match catalog with
  | ListingTimeout => ([LogFetchingCatalog; LogCatalogTimeout], SysExit 1)
  | ListingError => ([LogFetchingCatalog; LogCatalogError], SysExit 1)
  | ListingText None => ([LogFetchingCatalog; LogCatalogParseError], SysExit 1)
  | ListingText (Some pages) => ([LogFetchingCatalog], Value pages)
  end.

(** Iteration as in [py_iter], without the state. *)
Definition iter_value (v : json) : result (list json) :=
  match v with
  | JArr l => Ok l
  | JObj kvs => Ok (map (fun kv => JStr (fst kv)) kvs)
  | JStr s => Ok (map (fun c => JStr (String c EmptyString)) (chars s))
  | _ => Raise TypeError
  end.

(** A comprehension over [l] whose element expression is [f]: it raises
    at the first element on which [f] raises. *)
Fixpoint map_result {A B : Type} (f : A -> result B) (l : list A)
  : result (list B) :=
  match l with
  | [] => Ok []
  | a :: l' =>
    match f a with
    | Raise e => Raise e
    | Ok b => match map_result f l' with
              | Raise e => Raise e
              | Ok bs => Ok (b :: bs)
              end
    end
  end.

(** A thread of the catalog as [main] keeps it: the tuple
    (semantic_url, no, images) with the defaults of the three [get]. *)
Definition thread_entry (thread : dict) : json * json * json :=
  (dict_get_default thread "semantic_url" (JStr EmptyString),
   dict_get_default thread "no" JNull,
   dict_get_default thread "images" (JNum 0)).

Definition thread_tuple (thread : json) : result (json * json * json) :=
  match thread with
  | JObj d => Ok (thread_entry d)
  | _ => Raise AttributeError
  end.

(** The inner [for] of the comprehension of lines 185-188, for one page. *)
Definition page_threads (page : json) : result (list (json * json * json)) :=
  match page with
  | JObj d =>
    match iter_value (dict_get_default d "threads" (JArr [])) with
    | Raise e => Raise e
    | Ok threads => map_result thread_tuple threads
    end
  | _ => Raise AttributeError
  end.

(** Lines 185-188. *)
Definition catalog_threads (pages : json) : result (list (json * json * json)) :=
  match iter_value pages with
  | Raise e => Raise e
  | Ok ps =>
    match map_result page_threads ps with
    | Raise e => Raise e
    | Ok tss => Ok (List.concat tss)
    end
  end.

(** Lines 213-219: the tokens that [int] parses, in order, and a warning
    for each one it rejects. [py_int] is the builtin [int] on strings,
    [None] where it raises ValueError. *)
Fixpoint parse_choices (py_int : string -> option Z) (tokens : list string)
  : list front_entry * list Z :=
  match tokens with
  | [] => ([], [])
  | choice :: rest =>
    let '(warnings, choice_list) := parse_choices py_int rest in
    match py_int choice with
    | Some num => (warnings, num :: choice_list)
    | None => (LogInvalidChoiceFormat choice :: warnings, choice_list)
    end
  end.

(** [l[i]] for an integer [i]: negative indices count from the end;
    [None] is IndexError. *)
Definition py_index {A : Type} (l : list A) (i : Z) : option A :=
  let n := Z.of_nat (length l) in
  if (0 <=? i)%Z && (i <? n)%Z then l !! Z.to_nat i
  else if (- n <=? i)%Z && (i <? 0)%Z then l !! Z.to_nat (n + i)
  else None.

(** [sorted(set(choice_list))]: the distinct numbers in increasing order
    ([sorted_set_spec]). *)
Fixpoint insert_sorted (z : Z) (l : list Z) : list Z :=
  match l with
  | [] => [z]
  | y :: l' =>
    if (z <? y)%Z then z :: l
    else if (z =? y)%Z then l
    else y :: insert_sorted z l'
  end.

Definition sorted_set (l : list Z) : list Z := foldr insert_sorted [] l.

(** The test of line 226. *)
Definition out_of_range (max_index : Z) (c : Z) : bool :=
  (c <? 0)%Z || (max_index <? c)%Z.

(** How lines 221-236 end. *)
Inductive choice_result : Type :=
| NoValidChoice
| InvalidChoices (invalid_choices : list Z) (max_index : Z)
| IndexCrash
| Chosen (choice_list : list Z) (selected_threads : list (json * json)).

(** Lines 221-236: validation, [sorted(set(...))], and the comprehension
    that pairs the id and the title of each chosen thread. *)
Definition choose (threads : list (json * json * json)) (choice_list : list Z)
  : choice_result :=
  match choice_list with
  | [] => NoValidChoice
  | _ =>
    let max_index := (Z.of_nat (length threads) - 1)%Z in
    match List.filter (out_of_range max_index) choice_list with
    | (_ :: _) as invalid_choices => InvalidChoices invalid_choices max_index
    | [] =>
      let choice_list := sorted_set choice_list in
      match mapM (fun choice =>
                    match py_index threads choice with
                    | Some thread => Some (snd (fst thread), fst (fst thread))
                    | None => None
                    end) choice_list with
      | Some selected_threads => Chosen choice_list selected_threads
      | None => IndexCrash
      end
    end
  end.

(** How [main] leaves lines 182-240: by [sys.exit], by [return], or on to
    the download phase with the selected (id, title) pairs. *)
Inductive front_result : Type :=
| Exit (code : Z)
| Return
| Proceed (selected_threads : list (json * json)).

(** Lines 182-240 of [main], from the moment the catalog request has
    come back. [console] is what the prompt delivers: [None] for
    KeyboardInterrupt or EOFError, else the tokens of
    [input().strip().split()], of which there are none exactly when the
    stripped line is empty. An exception of the comprehensions reaches the
    handler of line 282. [Return] is the plain [return] of [main], kept
    apart from [Exit] here; [process_status] below gives the status the
    process ends with. A KeyboardInterrupt while the catalog request is
    under way is not an input of this function: [main_guarded] below adds
    it, with the handler of lines 278-281. *)
Definition main_front (py_int : string -> option Z) (catalog : listing_response)
    (console : option (list string)) : list front_entry * front_result :=
  match fetch_catalog catalog with
  | (lg, SysExit code) => (lg, Exit code)
  | (lg, Value pages) =>
    match catalog_threads pages with
    | Raise e => (lg ++ [LogCritical (Unexpected e)], Exit 1)
    | Ok all_threads =>
      match tail all_threads with
      | [] => (lg ++ [LogNoThreads], Return)
      | threads =>
        match console with
        | None => (lg, Exit 0)
        | Some [] => (lg ++ [LogNoSelection], Return)
        | Some tokens =>
          let '(warnings, choice_list) := parse_choices py_int tokens in
          match choose threads choice_list with
          | NoValidChoice => (lg ++ warnings, Return)
          | InvalidChoices invalid max_index =>
            (lg ++ warnings ++ [LogInvalidChoices invalid max_index], Return)
          | IndexCrash => (lg ++ warnings ++ [LogCritical IndexError], Exit 1)
          | Chosen choice_list selected_threads =>
            (lg ++ warnings ++ [LogUserSelected choice_list],
             Proceed selected_threads)
          end
        end
      end
    end
  end.



(** The thread of the catalog as the selection pairs it. *)
Definition id_and_title (thread : json * json * json) : json * json :=
  (snd (fst thread), fst (fst thread)).

(** Whether a choice is a valid index. *)
Definition in_range (threads : list (json * json * json)) (c : Z) : Prop :=
  (0 <= c < Z.of_nat (length threads))%Z.

(** ** Concrete inputs of the further examples *)

(** Every request times out. *)
Definition env_timeout : env :=
  calm (fun _ _ => GetTimeout) (listing_of [post_a (JNum 1)]).

(** Every request times out while another writer creates t/a.webm. *)
Definition env_timeout_racing : env := racing (fun _ _ => GetTimeout).

(** The state of the loop after an earlier response bound [filename]. *)
Definition state_bound : state := mkState tree_t [] [] (Some "b.webm").

(** Two posts with the same declared name. *)
Definition same_name_posts : list dict := [post_a (JNum 1); post_a (JNum 2)].

(** A post that is no webm. *)
Definition post_jpg : dict := [("ext", JStr ".jpg"); ("filename", JStr "p")].

(** A thread of the catalog. *)
Definition thread_of (no : Z) (title : string) : dict :=
  [("semantic_url", JStr title); ("no", JNum no)].

(** A catalog of two pages and four threads. *)
Definition catalog_pages : list dict :=
  [ [("page", JNum 1);
     ("threads", JArr [JObj (thread_of 10 "sticky"); JObj (thread_of 11 "one")])];
    [("page", JNum 2);
     ("threads", JArr [JObj (thread_of 12 "two"); JObj (thread_of 13 "three")])] ].

(** [int] on the one-digit tokens of the examples. *)
Definition digit_int (s : string) : option Z :=
  match s with
  | "0" => Some 0%Z
  | "1" => Some 1%Z
  | "2" => Some 2%Z
  | "3" => Some 3%Z
  | _ => None
  end.

(** ** Independence of the log *)

(** Two states that differ at most in their logs. *)
Definition same_world (s1 s2 : state) : Prop :=
  fs s1 = fs s2 /\ requests s1 = requests s2 /\ filename s1 = filename s2.

(** Two computations that, started in states that differ at most in
    their logs, give the same result and end in such states. *)
Definition blind {A : Type} (m1 m2 : M A) : Prop :=
  forall s1 s2, same_world s1 s2 ->
    fst (m1 s1) = fst (m2 s2) /\ same_world (snd (m1 s1)) (snd (m2 s2)).

Definition handlers_blind {A : Type} (h1 h2 : exn -> option (M A)) : Prop :=
  forall e, match h1 e, h2 e with
            | Some a, Some b => blind a b
            | None, None => True
            | _, _ => False
            end.

(** The tally after the entries of further listings. *)
Definition tally_app (t : tally) (entries : list (Z * listing_state)) : tally :=
  mkTally (successful_downloads t + count_done entries)
          (failed_downloads t + count_errored entries)
          (report t ++ entries).
(** * Properties *)

(** ** Strings *)

Section StringFacts.

Lemma str_chars s : str (chars s) = s.
Proof. apply string_of_list_ascii_of_string. Qed.

Lemma chars_str l : chars (str l) = l.
Proof. apply list_ascii_of_string_of_list_ascii. Qed.

Lemma length_chars s : length (chars s) = String.length s.
Proof. induction s as [|c s IH]; simpl; [reflexivity | now rewrite IH]. Qed.

Lemma length_str l : String.length (str l) = length l.
Proof. now rewrite <- length_chars, chars_str. Qed.

Lemma chars_app s1 s2 : chars (s1 +:+ s2) = chars s1 ++ chars s2.
Proof.
  induction s1 as [|c s1 IH]; [reflexivity|].
  change (String c s1 +:+ s2) with (String c (s1 +:+ s2)).
  simpl. now rewrite IH.
Qed.

Lemma chars_inj s1 s2 : chars s1 = chars s2 -> s1 = s2.
Proof. intros H. rewrite <- (str_chars s1), <- (str_chars s2). now rewrite H. Qed.

Lemma str_nonempty l : l <> [] -> str l <> EmptyString.
Proof. destruct l; [congruence | discriminate]. Qed.

(** Cancellation of a common suffix, for the numbered candidates of
    [get_unique_filepath]. *)
Lemma app_inv_suffix s1 s2 t : s1 +:+ t = s2 +:+ t -> s1 = s2.
Proof.
  intros H. apply chars_inj.
  apply (f_equal chars) in H. rewrite !chars_app in H.
  now apply app_inv_tail in H.
Qed.

End StringFacts.

(** ** [sanitize_filename] *)

Section SanitizeFacts.

Lemma sub_reserved_clean l : Forall clean (sub_reserved l).
Proof.
  unfold sub_reserved. apply Forall_map, List.Forall_forall. intros c _. unfold clean.
  destruct (is_reserved c) eqn:Hc; [reflexivity | exact Hc].
Qed.

Lemma lstrip_Forall (P : ascii -> Prop) l : Forall P l -> Forall P (lstrip l).
Proof.
  induction 1 as [|c l Hc Hl IH]; simpl; [constructor|].
  destruct (is_strip c); [exact IH | now constructor].
Qed.

Lemma strip_Forall (P : ascii -> Prop) l : Forall P l -> Forall P (strip l).
Proof.
  intros H. unfold strip.
  apply Forall_rev, lstrip_Forall, Forall_rev, lstrip_Forall, H.
Qed.

Lemma sub_control_Forall (P : ascii -> Prop) l :
  Forall P l -> Forall P (sub_control l).
Proof.
  unfold sub_control. rewrite !List.Forall_forall. intros H c Hc.
  apply H. apply List.filter_In in Hc. tauto.
Qed.

Lemma name3_clean name :
  Forall clean (sub_control (strip (sub_reserved (chars name)))).
Proof. apply sub_control_Forall, strip_Forall, sub_reserved_clean. Qed.

Lemma unnamed_clean : Forall clean (chars unnamed).
Proof. repeat constructor. Qed.

(** The conditional of the last line is a truncation followed by the
    placeholder test. *)
Lemma sanitize_filename_pipeline name :
  sanitize_filename name = sanitize_amended name.
Proof.
  unfold sanitize_filename, sanitize_amended.
  destruct name as [|c name]; [reflexivity|].
  set (l := sub_control _).
  destruct (200 <? length l) eqn:Hlen.
  - apply Nat.ltb_lt in Hlen.
    destruct l as [|a l']; [simpl in Hlen; lia | reflexivity].
  - apply Nat.ltb_ge in Hlen. rewrite firstn_all2 by exact Hlen. reflexivity.
Qed.

(** C7: [sanitize_filename] is total, and its result is never empty,
    holds at most 200 characters and none of the reserved characters
    < > : double quote / \ | ? *. *)
Theorem sanitize_filename_bounded (name : string) :
  sanitize_filename name <> EmptyString
  /\ String.length (sanitize_filename name) <= 200
  /\ Forall (fun c => is_reserved c = false) (chars (sanitize_filename name)).
Proof.
  unfold sanitize_filename.
  destruct name as [|c name].
  { split; [discriminate|]. split; [simpl; lia | exact unnamed_clean]. }
  set (l := sub_control _).
  assert (Hl : Forall clean l) by apply name3_clean.
  destruct (200 <? length l) eqn:Hlen.
  - apply Nat.ltb_lt in Hlen.
    assert (Hf : length (firstn 200 l) = 200) by (rewrite length_firstn; lia).
    split; [|split].
    + apply str_nonempty. intros E. rewrite E in Hf. discriminate.
    + rewrite length_str. lia.
    + rewrite chars_str. apply Forall_take, Hl.
  - apply Nat.ltb_ge in Hlen.
    destruct l as [|a l'] eqn:El.
    + split; [discriminate|]. split; [simpl; lia | exact unnamed_clean].
    + split; [discriminate|]. split.
      * rewrite length_str. exact Hlen.
      * rewrite chars_str. exact Hl.
Qed.

(** On the string a, 0x01, b the code deletes the control character where
    the worded algorithm writes an underscore. *)
Definition a_ctrl_b : string := String "a" (String "001" (String "b" EmptyString)).

(** C8, as stated, fails: on a, 0x01, b the code returns ab, the worded
    algorithm a_b. *)
Lemma sanitize_spec_differs :
  sanitize_filename a_ctrl_b = "ab" /\ sanitize_spec a_ctrl_b = "a_b"
  /\ sanitize_filename a_ctrl_b <> sanitize_spec a_ctrl_b.
Proof. split; [reflexivity|]. split; [reflexivity | discriminate]. Qed.

(** C8, amended: [sanitize_filename] replaces each of the reserved
    characters with an underscore, strips leading and trailing dots and
    spaces, then deletes (does not replace) the control characters,
    truncates to 200 characters and substitutes unnamed when the result is
    empty. *)
Theorem sanitize_filename_algorithm (name : string) :
  sanitize_filename name =
  match firstn 200 (sub_control (strip (sub_reserved (chars name)))) with
  | [] => unnamed
  | r => str r
  end.
Proof.
  rewrite sanitize_filename_pipeline. unfold sanitize_amended.
  destruct (firstn 200 _); reflexivity.
Qed.

(** Where the input holds no control character the code and the worded
    algorithm agree. *)
Lemma sanitize_spec_agrees name :
  Forall (fun c => is_control c = false) (chars name) ->
  sanitize_filename name = sanitize_spec name.
Proof.
  intros H. rewrite sanitize_filename_pipeline.
  unfold sanitize_amended, sanitize_spec.
  assert (Hmap : sub_illegal (chars name) = sub_reserved (chars name)).
  { unfold sub_illegal, sub_reserved. apply map_ext_in. intros c Hc.
    rewrite List.Forall_forall in H. rewrite (H c Hc), orb_false_r. reflexivity. }
  rewrite Hmap.
  assert (Hc : Forall (fun c => is_control c = false) (strip (sub_reserved (chars name)))).
  { apply strip_Forall. unfold sub_reserved. apply Forall_map.
    eapply List.Forall_impl; [|exact H]. intros c Hc. simpl.
    destruct (is_reserved c); [reflexivity | exact Hc]. }
  assert (Hfil : sub_control (strip (sub_reserved (chars name)))
                 = strip (sub_reserved (chars name))).
  { unfold sub_control. induction Hc as [|c l Hc _ IH]; [reflexivity|].
    simpl. rewrite Hc. simpl. now rewrite IH. }
  rewrite Hfil. reflexivity.
Qed.

End SanitizeFacts.

(** ** [get_unique_filepath] *)

Section UniquePath.

Variable t : gmap string node.
Variables directory base_filename extension : string.

Local Abbreviation cand := (candidate directory base_filename extension).
Local Abbreviation first_path := (path_join directory (base_filename +:+ extension)).

Lemma startswith_base_app x y c :
  startswith (base_filename +:+ String c x) "/"
  = startswith (base_filename +:+ String c y) "/".
Proof. destruct base_filename; reflexivity. Qed.

Lemma candidate_inj c1 c2 : cand c1 = cand c2 -> c1 = c2.
Proof.
  unfold candidate, path_join.
  change ("_" +:+ pretty c1 +:+ extension)
    with (String "_" (pretty c1 +:+ extension)).
  change ("_" +:+ pretty c2 +:+ extension)
    with (String "_" (pretty c2 +:+ extension)).
  rewrite (startswith_base_app (pretty c1 +:+ extension) (pretty c2 +:+ extension)).
  assert (Hfin : base_filename +:+ String "_" (pretty c1 +:+ extension)
                 = base_filename +:+ String "_" (pretty c2 +:+ extension)
                 -> c1 = c2).
  { intros H. apply String.app_inj in H. injection H as H.
    apply app_inv_suffix in H. exact (pretty_nat_inj _ _ H). }
  destruct (startswith _ _); [exact Hfin|].
  destruct (_ || _); intros H; apply String.app_inj in H;
    [exact (Hfin H)|].
  apply String.app_inj in H. exact (Hfin H).
Qed.

Lemma path_exists_dom p : path_exists t p = true <-> p ∈ dom t.
Proof.
  unfold path_exists. rewrite bool_decide_eq_true. symmetry. apply elem_of_dom.
Qed.

(** The candidates 1 .. size t + 1 cannot all exist: they are pairwise
    distinct and the tree holds only size t paths. *)
Lemma free_candidate :
  exists n, n <= size t /\ path_exists t (cand (1 + n)) = false.
Proof.
  set (ks := seq 1 (S (size t))).
  destruct (decide (Exists (fun k => path_exists t (cand k) = false) ks))
    as [Hex | Hall].
  - apply Exists_exists in Hex as (k & Hk & Hfree).
    apply list_elem_of_In, in_seq in Hk.
    exists (k - 1). split; [lia|].
    replace (1 + (k - 1)) with k by lia. exact Hfree.
  - exfalso. apply not_Exists_Forall in Hall; [|intros k; apply _].
    assert (Hsub : list_to_set (C := gset string) (cand <$> ks) ⊆ dom t).
    { intros p Hp. apply elem_of_list_to_set, list_elem_of_fmap in Hp
        as (k & -> & Hk).
      rewrite Forall_forall in Hall. specialize (Hall k Hk). simpl in Hall.
      apply path_exists_dom. destruct (path_exists t (cand k)); congruence. }
    apply subseteq_size in Hsub.
    rewrite size_list_to_set, size_dom in Hsub.
    + unfold ks in Hsub. rewrite length_fmap, length_seq in Hsub. lia.
    + apply NoDup_fmap_2; [|apply NoDup_seq].
      intros c1 c2. apply candidate_inj.
  Qed.

(** The loop entered at candidate [c] stops within [n + 1] tests when the
    candidate [c + n] is free. *)
Lemma unique_loop_stops n : forall c fuel,
  path_exists t (cand (c + n)) = false -> n + 1 <= fuel ->
  exists r, unique_loop fuel t directory base_filename extension (cand c) (S c)
            = Some r.
Proof.
  induction n as [|n IH]; intros c fuel Hfree Hfuel;
    (destruct fuel as [|fuel]; [lia|]); simpl.
  - replace (c + 0) with c in Hfree by lia. rewrite Hfree. eauto.
  - destruct (path_exists t (cand c)); [|eauto].
    apply IH; [|lia]. replace (S c + n) with (c + S n) by lia. exact Hfree.
Qed.

Lemma unique_loop_enough extra :
  exists r, unique_loop (size t + 2 + extra) t directory base_filename extension
              first_path 1 = Some r.
Proof.
  replace (size t + 2 + extra) with (S (size t + 1 + extra)) by lia. simpl.
  destruct (path_exists t first_path); [|eauto].
  destruct free_candidate as (n & Hn & Hfree).
  apply (unique_loop_stops n 1); [exact Hfree | lia].
Qed.

(** What the loop returns: a free path, the one it was entered with or
    the first free candidate from [c] on. *)
Lemma unique_loop_result fuel : forall p c r,
  unique_loop fuel t directory base_filename extension p c = Some r ->
  path_exists t r = false
  /\ (if path_exists t p
      then exists k, c <= k /\ r = cand k
                     /\ Forall (fun j => path_exists t (cand j) = true)
                          (seq c (k - c))
      else r = p).
Proof.
  induction fuel as [|fuel IH]; intros p c r; simpl; [discriminate|].
  destruct (path_exists t p) eqn:Hp.
  - intros H. apply IH in H as [Hfree Hr]. split; [exact Hfree|].
    destruct (path_exists t (cand c)) eqn:Hc.
    + destruct Hr as (k & Hk & -> & Hall).
      exists k. split; [lia|]. split; [reflexivity|].
      replace (k - c) with (S (k - S c)) by lia. simpl.
      constructor; [exact Hc | exact Hall].
    + subst r. exists c. split; [lia|]. split; [reflexivity|].
      replace (c - c) with 0 by lia. constructor.
  - intros [= <-]. split; [exact Hp | reflexivity].
Qed.

Lemma unique_loop_more_fuel fuel : forall fuel' p c r,
  unique_loop fuel t directory base_filename extension p c = Some r ->
  fuel <= fuel' ->
  unique_loop fuel' t directory base_filename extension p c = Some r.
Proof.
  induction fuel as [|fuel IH]; intros fuel' p c r; simpl; [discriminate|].
  intros H Hle. destruct fuel' as [|fuel']; [lia|]. simpl.
  destruct (path_exists t p); [|exact H].
  apply IH; [exact H | lia].
Qed.

(** The function is the loop run with any fuel of size t + 2 or more. *)
Lemma get_unique_filepath_loop extra :
  unique_loop (size t + 2 + extra) t directory base_filename extension
    first_path 1
  = Some (get_unique_filepath t directory base_filename extension).
Proof.
  unfold get_unique_filepath.
  destruct (unique_loop_enough 0) as [r Hr].
  replace (size t + 2 + 0) with (size t + 2) in Hr by lia.
  destruct (path_exists t first_path) eqn:Hp.
  - rewrite Hr. apply (unique_loop_more_fuel _ _ _ _ _ Hr). lia.
  - replace (size t + 2 + extra) with (S (size t + 1 + extra)) by lia.
    simpl. rewrite Hp. reflexivity.
Qed.

Lemma get_unique_filepath_free :
  path_exists t (get_unique_filepath t directory base_filename extension) = false.
Proof.
  pose proof (get_unique_filepath_loop 0) as H.
  apply unique_loop_result in H. apply H.
Qed.

(** C9: for every directory tree, base name and extension the loop of
    [get_unique_filepath] terminates (any fuel from size t + 2 on gives
    the result) and the path returned does not exist in the tree; it is
    directory/base+extension when that is free, and otherwise the
    candidate base_k+extension for the least k >= 1 that is free, every
    candidate 1 .. k-1 existing. *)
Theorem get_unique_filepath_unique :
  let p := get_unique_filepath t directory base_filename extension in
  path_exists t p = false
  /\ (forall extra,
        unique_loop (size t + 2 + extra) t directory base_filename extension
          first_path 1 = Some p)
  /\ (if path_exists t first_path
      then exists k, 1 <= k /\ p = cand k
                     /\ Forall (fun j => path_exists t (cand j) = true)
                          (seq 1 (k - 1))
      else p = first_path).
Proof.
  intros p. split; [apply get_unique_filepath_free|].
  split; [intros extra; apply get_unique_filepath_loop|].
  pose proof (get_unique_filepath_loop 0) as H.
  apply unique_loop_result in H. apply H.
Qed.

End UniquePath.

(** ** The monad *)

Section MonadFacts.

Lemma bind_ret_l {A B} (a : A) (k : A -> M B) : bind (ret a) k = k a.
Proof. reflexivity. Qed.

Lemma bind_raise {A B} (e : exn) (k : A -> M B) : bind (raise e) k = raise e.
Proof. reflexivity. Qed.

Lemma try_except_ok {A} (m : M A) h s a s' :
  m s = (Ok a, s') -> try_except m h s = (Ok a, s').
Proof. intros H. unfold try_except. now rewrite H. Qed.

Lemma try_except_raise {A} (m : M A) h s e s' :
  m s = (Raise e, s') ->
  try_except m h s = match h e with Some k => k s' | None => (Raise e, s') end.
Proof. intros H. unfold try_except. now rewrite H. Qed.

End MonadFacts.

(** ** One download attempt *)

Section Download.

Variable E : env.

#[local] Arguments get_unique_filepath : simpl never.
#[local] Arguments sanitize_filename : simpl never.
#[local] Arguments basename : simpl never.
#[local] Arguments path_exists : simpl never.

Lemma same_channel_refl s : same_channel s s.
Proof. repeat split. Qed.

Lemma same_channel_trans s1 s2 s3 :
  same_channel s1 s2 -> same_channel s2 s3 -> same_channel s1 s3.
Proof. unfold same_channel. intros (?&?&?) (?&?&?). repeat split; congruence. Qed.

Lemma iter_content_frame p fin body : forall w s,
  same_channel s (snd (iter_content E p body fin w s)).
Proof.
  induction body as [|chunk body IH]; intros w s; simpl.
  - destruct fin; apply same_channel_refl.
  - destruct chunk as [|b chunk]; [apply IH|].
    unfold bind, write.
    destruct (fs s !! p) as [[|content]|]; simpl; try apply same_channel_refl.
    destruct (write_denied E p (length content)); simpl;
      [apply same_channel_refl|].
    eapply same_channel_trans; [|apply IH]. repeat split.
Qed.

(** With no write error the stream leaves every chunk in the file. *)
Lemma iter_content_complete p fin body : forall w s c0,
  (forall n, write_denied E p n = false) ->
  fs s !! p = Some (File c0) ->
  exists s',
    iter_content E p body fin w s
      = (stream_result fin (w + length (List.concat body)), s')
    /\ fs s' = <[p := File (c0 ++ List.concat body)]> (fs s)
    /\ same_channel s s'.
Proof.
  induction body as [|chunk body IH]; intros w s c0 Hw Hp; simpl.
  - exists s. rewrite Nat.add_0_r, app_nil_r.
    split; [destruct fin; reflexivity|].
    split; [symmetry; now apply insert_id | apply same_channel_refl].
  - destruct chunk as [|b chunk]; [now apply IH|].
    unfold bind, write. rewrite Hp, Hw.
    destruct (IH (w + length (b :: chunk))
                (set_fs (insert p (File (c0 ++ b :: chunk))) s)
                (c0 ++ b :: chunk) Hw) as (s' & Hs' & Hfs & Hch).
    { simpl. apply lookup_insert_eq. }
    exists s'. rewrite Hs'. split.
    + f_equal. f_equal. rewrite length_app. simpl. lia.
    + split; [|exact Hch]. rewrite Hfs. simpl.
      rewrite insert_insert_eq. now rewrite <- app_assoc.
Qed.

Lemma store_response_lost_race p body fin s :
  path_exists (fs s) p = true ->
  store_response E p body fin s
  = (Ok (Skipped p),
     mkState (fs s) (log s ++ [LogCreatedByOther p]) (requests s) (filename s)).
Proof.
  intros Hex. unfold store_response, try_except, bind, open_xb.
  rewrite Hex. reflexivity.
Qed.

Lemma store_response_complete p body fin s :
  path_exists (fs s) p = false ->
  open_denied E p = false ->
  (forall n, write_denied E p n = false) ->
  exists s',
    store_response E p body fin s
      = (match fin with
         | StreamOk => Ok (Downloaded p (length (List.concat body)))
         | StreamTimeout => Raise Timeout
         | StreamError => Raise RequestException
         end, s')
    /\ fs s' = <[p := File (List.concat body)]> (fs s)
    /\ log s' = log s ++ match fin with StreamOk => [LogDownloaded p] | _ => [] end
    /\ requests s' = requests s
    /\ filename s' = filename s.
Proof.
  intros Hfree Hopen Hw.
  destruct (iter_content_complete p fin body 0
              (set_fs (insert p (File [])) s) [] Hw)
    as (s1 & Hit & Hfs & Hlog & Hreq & Hfn).
  { simpl. apply lookup_insert_eq. }
  simpl in Hfs, Hlog, Hreq, Hfn. rewrite insert_insert_eq in Hfs.
  unfold store_response, try_except, bind, open_xb.
  rewrite Hfree, Hopen, Hit.
  destruct fin; simpl; eexists; (split; [reflexivity|]); simpl;
    rewrite ?app_nil_r, ?Hlog; auto.
Qed.

(** Whatever the environment does, the inner [try] ends in one of the
    three outcomes or raises, and issues no request. *)
Lemma store_response_general p body fin s :
  exists r s',
    store_response E p body fin s = (r, s')
    /\ requests s' = requests s
    /\ match r with Ok o => terminal o | Raise _ => True end.
Proof.
  unfold store_response, try_except, bind, open_xb.
  destruct (path_exists (fs s) p); [simpl; now eexists _, _|].
  destruct (open_denied E p); [simpl; now eexists _, _|].
  pose proof (iter_content_frame p fin body 0 (set_fs (insert p (File [])) s))
    as (_ & Hreq & _).
  destruct (iter_content E p body fin 0 _) as [[n|e] s1]; simpl in *.
  - eexists _, _. split; [reflexivity|]. simpl. split; [exact Hreq | exact I].
  - destruct e; simpl;
      eexists _, _; (split; [reflexivity|]); simpl; split; auto; exact I.
Qed.

Lemma cleanup_frame p s :
  exists s', cleanup E p s = (Ok tt, s') /\ same_channel s s'
    /\ fs s' = match fs s !! p with
               | Some (File _) => if remove_denied E p then fs s else delete p (fs s)
               | _ => fs s
               end.
Proof.
  unfold cleanup, bind, get_state, try_except, remove, path_exists.
  destruct (fs s !! p) as [[|content]|] eqn:Hp; simpl.
  - rewrite Hp. simpl. exists s. repeat split.
  - rewrite Hp. destruct (remove_denied E p); simpl; eexists; repeat split.
  - exists s. repeat split.
Qed.

Lemma transport_handler_general u p e s h :
  transport_handler E u p e = Some h ->
  exists r s', h s = (r, s') /\ requests s' = requests s
    /\ match r with Ok o => terminal o | Raise _ => True end.
Proof.
  unfold transport_handler.
  assert (Hbody : forall entry, exists r s',
    (logger entry ;;; read_filename ;;; cleanup E p ;;; ret (Failed e)) s = (r, s')
    /\ requests s' = requests s
    /\ match r with Ok o => terminal o | Raise _ => True end).
  { intros entry. unfold bind, logger, modify, read_filename, get_state. simpl.
    destruct (filename s) as [f|]; simpl; [|now eexists _, _].
    destruct (cleanup_frame p
                (mkState (fs s) (log s ++ [entry]) (requests s) (Some f)))
      as (s1 & Hc & (_ & Hreq & _) & _).
    rewrite Hc. simpl. eexists _, _. split; [reflexivity|].
    split; [exact Hreq | exact I]. }
  destruct (isinstance e Timeout); [intros [= <-]; apply Hbody|].
  destruct (isinstance e RequestException); [intros [= <-]; apply Hbody|].
  discriminate.
Qed.

(** An attempt issues exactly one request and ends in one of the three
    outcomes, or raises. *)
Lemma attempt_general u p s :
  exists r s',
    attempt E u p s = (r, s')
    /\ requests s' = requests s ++ [u]
    /\ match r with Ok o => terminal o | Raise _ => True end.
Proof.
  unfold attempt. unfold try_except at 1.
  set (s0 := mkState (interfere E (length (requests s)) (fs s)) (log s)
               (requests s ++ [u]) (filename s)).
  assert (Hhandle : forall e s1, requests s1 = requests s ++ [u] ->
    exists r s',
      match transport_handler E u p e with
      | Some h => h s1
      | None => (Raise e, s1)
      end = (r, s')
      /\ requests s' = requests s ++ [u]
      /\ match r with Ok o => terminal o | Raise _ => True end).
  { intros e s1 Hs1.
    destruct (transport_handler E u p e) as [h|] eqn:Hh; [|now eexists _, _].
    destruct (transport_handler_general u p e s1 h Hh) as (r & s' & -> & Hr & Ht).
    exists r, s'. split; [reflexivity|]. split; [congruence | exact Ht]. }
  unfold bind at 1. unfold requests_get. fold s0.
  destruct (http_get E (length (requests s)) u) as [| |cl body fin];
    [apply Hhandle; reflexivity | apply Hhandle; reflexivity|].
  destruct cl as [|z|]; simpl; [| |eexists _, _; repeat split].
  - destruct (store_response_general p body fin
                (mkState (fs s0) (log s0) (requests s0) (Some (basename p))))
      as (r & s' & Hst & Hreq & Ht).
    unfold bind, set_filename, modify. simpl. simpl in Hst. rewrite Hst.
    destruct r as [o|e]; [now eexists _, _|]. apply Hhandle. exact Hreq.
  - destruct (store_response_general p body fin
                (mkState (fs s0) (log s0) (requests s0) (Some (basename p))))
      as (r & s' & Hst & Hreq & Ht).
    unfold bind, set_filename, modify. simpl. simpl in Hst. rewrite Hst.
    destruct r as [o|e]; [now eexists _, _|]. apply Hhandle. exact Hreq.
Qed.

(** An attempt whose request is answered: the response is stored in the
    tree that the other processes left, with [filename] bound. *)
Lemma attempt_response u p s cl body fin :
  http_get E (length (requests s)) u = GetOk cl body fin ->
  cl <> CLMalformed ->
  attempt E u p s
  = try_except (store_response E p body fin) (transport_handler E u p)
      (mkState (interfere E (length (requests s)) (fs s)) (log s)
         (requests s ++ [u]) (Some (basename p))).
Proof.
  intros Hget Hcl. unfold attempt, try_except at 1 2, bind at 1, requests_get.
  rewrite Hget. destruct cl; [reflexivity | reflexivity | congruence].
Qed.

(** The prefix of the loop body, for a post whose name sanitizes and whose
    [tim] is truthy: the check of line 114 never fires. *)
Lemma process_webm_front safe_title webm s base :
  sanitize_filename_value (dict_get_default webm "filename" (JStr unnamed))
    = ret base ->
  truthy (tim_of webm) = true ->
  process_webm E safe_title webm s
  = try_except
      (attempt E (file_url (tim_of webm))
         (get_unique_filepath (fs s) safe_title base ".webm"))
      (fun e => Some (logger (LogUnexpected e) ;;; ret (Failed e))) s.
Proof.
  intros Hsan Htim. unfold process_webm, tim_of in *. rewrite Hsan.
  unfold try_except. rewrite bind_ret_l. unfold bind, get_state.
  cbv beta iota zeta. rewrite get_unique_filepath_free, Htim. reflexivity.
Qed.

Lemma process_webm_falsy safe_title webm s :
  truthy (tim_of webm) = false ->
  process_webm E safe_title webm s
  = try_except
      (sanitize_filename_value (dict_get_default webm "filename" (JStr unnamed)) ;;;
       logger LogNoTim ;;; ret Dropped)
      (fun e => Some (logger (LogUnexpected e) ;;; ret (Failed e))) s.
Proof.
  intros Htim. unfold process_webm, tim_of in *.
  unfold try_except, bind, get_state.
  destruct (sanitize_filename_value _ s) as [[base|e] s1]; [|reflexivity].
  cbv beta iota zeta. rewrite get_unique_filepath_free, Htim. reflexivity.
Qed.

Lemma sanitize_filename_value_cases v :
  (exists base, sanitize_filename_value v = ret base)
  \/ sanitize_filename_value v = raise TypeError.
Proof.
  unfold sanitize_filename_value.
  destruct (negb (truthy v)); [eauto|]. destruct v; eauto.
Qed.

(** Every iteration ends in exactly one outcome: one of the three terminal
    ones when [tim] is truthy, and then after at most one request. *)
Lemma process_webm_outcome safe_title webm s :
  exists o s', process_webm E safe_title webm s = (Ok o, s')
    /\ (if truthy (tim_of webm) then terminal o
        else o = Dropped \/ o = Failed TypeError)
    /\ (requests s' = requests s
        \/ truthy (tim_of webm) = true
           /\ requests s' = requests s ++ [file_url (tim_of webm)]).
Proof.
  destruct (truthy (tim_of webm)) eqn:Htim.
  - destruct (sanitize_filename_value_cases
                (dict_get_default webm "filename" (JStr unnamed)))
      as [[base Hsan] | Hsan].
    + rewrite (process_webm_front _ _ _ base Hsan Htim).
      destruct (attempt_general (file_url (tim_of webm))
                  (get_unique_filepath (fs s) safe_title base ".webm") s)
        as (r & s' & Hat & Hreq & Ht).
      unfold try_except. rewrite Hat.
      destruct r as [o|e]; simpl; eexists _, _; (split; [reflexivity|]);
        simpl; split; auto; exact I.
    + unfold process_webm, try_except, bind. rewrite Hsan. simpl.
      eexists _, _. split; [reflexivity|]. simpl. split; [exact I | now left].
  - rewrite (process_webm_falsy _ _ _ Htim).
    destruct (sanitize_filename_value_cases
                (dict_get_default webm "filename" (JStr unnamed)))
      as [[base Hsan] | Hsan]; rewrite Hsan; simpl;
      eexists _, _; (split; [reflexivity|]); simpl; auto.
Qed.

(** C10: a post whose [tim] is falsy (absent, null, the integer 0, ...)
    is handled exactly like a post with no [tim] field: no request is
    issued, the directory tree is left as it was, and the iteration ends
    as dropped (or, when the declared file name is not a string, with the
    TypeError of the sanitizer); only a truthy [tim] leads to a request. *)
Theorem falsy_tim_is_dropped safe_title (webm webm' : dict) (s : state) :
  truthy (tim_of webm) = false ->
  dict_get webm' "tim" = None ->
  dict_get webm' "filename" = dict_get webm "filename" ->
  process_webm E safe_title webm s = process_webm E safe_title webm' s
  /\ requests (snd (process_webm E safe_title webm s)) = requests s
  /\ fs (snd (process_webm E safe_title webm s)) = fs s
  /\ (fst (process_webm E safe_title webm s) = Ok Dropped
      \/ fst (process_webm E safe_title webm s) = Ok (Failed TypeError)).
Proof.
  intros Htim Habsent Hname.
  assert (Htim' : truthy (tim_of webm') = false).
  { unfold tim_of, dict_get_default. now rewrite Habsent. }
  rewrite (process_webm_falsy _ _ _ Htim), (process_webm_falsy _ _ _ Htim').
  unfold dict_get_default. rewrite Hname.
  split; [reflexivity|].
  destruct (sanitize_filename_value_cases
              (match dict_get webm "filename" with
               | Some v => v
               | None => JStr unnamed
               end)) as [[base Hsan] | Hsan]; rewrite Hsan; simpl; auto.
Qed.

(** C5: when the exclusive-create open fails because the chosen path came
    into existence while the request was in flight, the iteration ends as
    skipped, not failed; the directory tree is the one the other writer
    left, so nothing at that path is overwritten, and the only log line
    added is the debug line of line 151. *)
Theorem lost_race_is_skipped safe_title (webm : dict) (s : state)
    base cl body fin :
  sanitize_filename_value (dict_get_default webm "filename" (JStr unnamed))
    = ret base ->
  truthy (tim_of webm) = true ->
  http_get E (length (requests s)) (file_url (tim_of webm)) = GetOk cl body fin ->
  cl <> CLMalformed ->
  path_exists (interfere E (length (requests s)) (fs s))
    (get_unique_filepath (fs s) safe_title base ".webm") = true ->
  let file_path := get_unique_filepath (fs s) safe_title base ".webm" in
  fst (process_webm E safe_title webm s) = Ok (Skipped file_path)
  /\ fs (snd (process_webm E safe_title webm s))
     = interfere E (length (requests s)) (fs s)
  /\ log (snd (process_webm E safe_title webm s))
     = log s ++ [LogCreatedByOther file_path].
Proof.
  intros Hsan Htim Hget Hcl Hex file_path.
  rewrite (process_webm_front _ _ _ base Hsan Htim). fold file_path.
  unfold try_except. rewrite (attempt_response _ _ _ _ _ _ Hget Hcl).
  unfold try_except. rewrite store_response_lost_race by exact Hex.
  simpl. auto.
Qed.

Lemma transport_handler_bound u p e s f :
  e = Timeout \/ e = RequestException ->
  filename s = Some f ->
  exists s',
    match transport_handler E u p e with
    | Some h => h s
    | None => (Raise e, s)
    end = (Ok (Failed e), s')
    /\ log s' = log s ++ [match e with Timeout => LogTimeout u | _ => LogDownloadError u end]
    /\ requests s' = requests s
    /\ fs s' = match fs s !! p with
               | Some (File _) => if remove_denied E p then fs s else delete p (fs s)
               | _ => fs s
               end.
Proof.
  intros He Hf.
  assert (Hbody : forall entry, exists s',
    (logger entry ;;; read_filename ;;; cleanup E p ;;; ret (Failed e)) s
      = (Ok (Failed e), s')
    /\ log s' = log s ++ [entry] /\ requests s' = requests s
    /\ fs s' = match fs s !! p with
               | Some (File _) => if remove_denied E p then fs s else delete p (fs s)
               | _ => fs s
               end).
  { intros entry. unfold bind, logger, modify, read_filename, get_state. simpl.
    rewrite Hf. simpl.
    destruct (cleanup_frame p
                (mkState (fs s) (log s ++ [entry]) (requests s) (Some f)))
      as (s1 & Hc & (Hlog & Hreq & _) & Hfs).
    rewrite Hc. simpl. exists s1. auto. }
  destruct He as [-> | ->]; simpl; apply Hbody.
Qed.

(** C3, amended: when the transfer fails or times out while the body is
    streamed (and writing to disk itself does not fail), the partial file
    is removed and the iteration ends as failed with the error of the
    transfer; when the removal fails the file stays, nothing is raised and
    no log line records it (the log is the same either way). When the
    body arrives whole, the file holds every chunk. *)
Theorem partial_file_cleanup safe_title (webm : dict) (s : state)
    base cl body fin :
  sanitize_filename_value (dict_get_default webm "filename" (JStr unnamed))
    = ret base ->
  truthy (tim_of webm) = true ->
  http_get E (length (requests s)) (file_url (tim_of webm)) = GetOk cl body fin ->
  cl <> CLMalformed ->
  path_exists (interfere E (length (requests s)) (fs s))
    (get_unique_filepath (fs s) safe_title base ".webm") = false ->
  open_denied E (get_unique_filepath (fs s) safe_title base ".webm") = false ->
  (forall n,
     write_denied E (get_unique_filepath (fs s) safe_title base ".webm") n = false) ->
  let file_path := get_unique_filepath (fs s) safe_title base ".webm" in
  let t1 := interfere E (length (requests s)) (fs s) in
  let whole := <[file_path := File (List.concat body)]> t1 in
  let r := process_webm E safe_title webm s in
  match fin with
  | StreamOk =>
    fst r = Ok (Downloaded file_path (length (List.concat body)))
    /\ fs (snd r) = whole
    /\ log (snd r) = log s ++ [LogDownloaded file_path]
  | StreamTimeout =>
    fst r = Ok (Failed Timeout)
    /\ fs (snd r) = (if remove_denied E file_path then whole else t1)
    /\ log (snd r) = log s ++ [LogTimeout (file_url (tim_of webm))]
  | StreamError =>
    fst r = Ok (Failed RequestException)
    /\ fs (snd r) = (if remove_denied E file_path then whole else t1)
    /\ log (snd r) = log s ++ [LogDownloadError (file_url (tim_of webm))]
  end.
Proof.
  intros Hsan Htim Hget Hcl Hfree Hopen Hw file_path t1 whole r. subst r.
  rewrite (process_webm_front _ _ _ base Hsan Htim). fold file_path.
  unfold try_except. rewrite (attempt_response _ _ _ _ _ _ Hget Hcl).
  fold t1.
  set (s1 := mkState t1 _ _ _).
  destruct (store_response_complete file_path body fin s1 Hfree Hopen Hw)
    as (s2 & Hst & Hfs & Hlog & Hreq & Hfn).
  simpl in Hfs, Hlog, Hreq, Hfn. fold whole in Hfs.
  assert (Hdel : delete file_path whole = t1).
  { unfold whole. apply delete_insert_id.
    unfold path_exists in Hfree. apply bool_decide_eq_false in Hfree.
    destruct (t1 !! file_path) eqn:Hl; [|reflexivity].
    exfalso. apply Hfree. eauto. }
  assert (Hfail : forall e, e = Timeout \/ e = RequestException ->
    log s2 = log s ->
    exists s',
      match transport_handler E (file_url (tim_of webm)) file_path e with
      | Some h => h s2
      | None => (Raise e, s2)
      end = (Ok (Failed e), s')
      /\ fs s' = (if remove_denied E file_path then whole else t1)
      /\ log s' = log s ++ [match e with
                            | Timeout => LogTimeout (file_url (tim_of webm))
                            | _ => LogDownloadError (file_url (tim_of webm))
                            end]).
  { intros e He Hlog2.
    destruct (transport_handler_bound (file_url (tim_of webm)) file_path e s2
                (basename file_path) He Hfn)
      as (s' & Hh & Hlog' & _ & Hfs').
    exists s'. split; [exact Hh|]. split.
    - rewrite Hfs', Hfs. unfold whole at 1. rewrite lookup_insert_eq.
      destruct (remove_denied E file_path); [reflexivity | exact Hdel].
    - now rewrite Hlog', Hlog2. }
  unfold try_except. rewrite Hst.
  destruct fin.
  - simpl. rewrite Hfs, Hlog. auto.
  - rewrite app_nil_r in Hlog.
    destruct (Hfail Timeout (or_introl eq_refl) Hlog) as (s' & -> & Hfs' & Hlog').
    simpl. auto.
  - rewrite app_nil_r in Hlog.
    destruct (Hfail RequestException (or_intror eq_refl) Hlog)
      as (s' & -> & Hfs' & Hlog').
    simpl. auto.
Qed.

(** Whatever is on disk, a post with a truthy [tim] and a name that
    sanitizes issues its request: the test of line 114 is made on a path
    that [get_unique_filepath] has just chosen to be free. *)
Lemma every_task_requests safe_title webm s base :
  sanitize_filename_value (dict_get_default webm "filename" (JStr unnamed))
    = ret base ->
  truthy (tim_of webm) = true ->
  requests (snd (process_webm E safe_title webm s))
  = requests s ++ [file_url (tim_of webm)].
Proof.
  intros Hsan Htim. rewrite (process_webm_front _ _ _ base Hsan Htim).
  destruct (attempt_general (file_url (tim_of webm))
              (get_unique_filepath (fs s) safe_title base ".webm") s)
    as (r & s' & Hat & Hreq & _).
  unfold try_except. rewrite Hat. destruct r; exact Hreq.
Qed.

Lemma for_each_webm_outcomes safe_title webms : forall s,
  exists outs s',
    for_each_webm E safe_title webms s = (Ok outs, s')
    /\ Forall2 outcome_of_post webms outs
    /\ exists reqs, requests s' = requests s ++ reqs
                    /\ reqs `sublist_of` task_urls webms.
Proof.
  induction webms as [|webm webms IH]; intros s; simpl.
  - exists [], s. split; [reflexivity|]. split; [constructor|].
    exists []. split; [now rewrite app_nil_r | constructor].
  - destruct (process_webm_outcome safe_title webm s)
      as (o & s1 & Hpw & Ho & Hreq).
    destruct (IH s1) as (outs & s2 & Hfe & Hall & reqs & Hreqs & Hsub).
    unfold bind. rewrite Hpw, Hfe.
    exists (o :: outs), s2. split; [reflexivity|].
    split; [constructor; assumption|].
    unfold task_urls, tasks in *. simpl.
    destruct Hreq as [Hreq | [Htim Hreq]].
    + exists reqs. split; [congruence|].
      destruct (truthy (tim_of webm)); [|exact Hsub].
      simpl. now apply sublist_cons.
    + exists (file_url (tim_of webm) :: reqs). split.
      * rewrite Hreqs, Hreq, <- app_assoc. reflexivity.
      * rewrite Htim. simpl. now apply sublist_skip.
Qed.

Lemma makedirs_result p s :
  makedirs E p s
  = if can_makedirs E (fs s) p
    then (Ok tt, match fs s !! p with
                 | None => set_fs (insert p Dir) s
                 | _ => s
                 end)
    else (Raise match fs s !! p with
                | Some _ => FileExistsError
                | None => OSError
                end, s).
Proof.
  unfold makedirs, can_makedirs.
  destruct (fs s !! p) as [[|c]|]; try reflexivity.
  destruct (makedirs_denied E p); reflexivity.
Qed.

Lemma select_webms_pure posts : forall s,
  select_webms posts s = (fst (select_webms posts (initial ∅)), s).
Proof.
  induction posts as [|post posts IH]; intros s; [reflexivity|].
  destruct post; try reflexivity. simpl. unfold bind.
  rewrite (IH s). rewrite (IH (initial ∅)).
  destruct (fst (select_webms posts (initial ∅))); reflexivity.
Qed.

Lemma extract_webms_pure thread_data s :
  extract_webms thread_data s = (payload_webms thread_data, s).
Proof.
  unfold payload_webms, extract_webms, bind, get_posts.
  destruct thread_data as [| | | |l|kvs]; try reflexivity. simpl.
  destruct (dict_get_default kvs "posts" (JArr [])); try reflexivity; simpl;
    rewrite select_webms_pure;
    (rewrite (select_webms_pure _ (initial ∅)); reflexivity).
Qed.

(** [download_webms] raises only what the comprehension raises. *)
Lemma download_webms_result thread_data thread_title s :
  exists r s',
    download_webms E thread_data thread_title s = (r, s')
    /\ match payload_webms thread_data with
       | Ok _ => exists d, r = Ok d
       | Raise e => r = Raise e
       end.
Proof.
  unfold download_webms, bind at 1 2, modify.
  rewrite extract_webms_pure.
  destruct (payload_webms thread_data) as [webms|e]; [|now eexists _, _].
  destruct webms as [|webm webms]; [simpl; eexists _, _; split; eauto|].
  set (ws := webm :: webms).
  unfold bind at 1, try_except, bind at 1. rewrite makedirs_result.
  cbv beta iota zeta.
  destruct (can_makedirs E _ _).
  - unfold ret at 1. cbv beta iota.
    unfold bind at 1, logger, modify. cbv beta iota. unfold bind at 1.
    match goal with
    | |- context [for_each_webm E ?st ws ?s0] =>
      destruct (for_each_webm_outcomes st ws s0) as (outs & s2 & Hfe & _)
    end.
    rewrite Hfe. simpl. eexists _, _. split; eauto.
  - simpl. destruct (fs _ !! _); simpl; eexists _, _; split; eauto.
Qed.

(** C4, amended: when the comprehension yields the posts [webms], either
    the directory of the listing exists or can be created, and then the
    loop runs once over every post and yields one outcome per post, in
    order: for a post with a truthy [tim] one of downloaded, skipped,
    failed; no post is tried again: the requests issued are a
    sub-sequence of the URLs of those posts. Or the directory cannot be
    created, and then [download_webms] logs the error and returns before
    the loop: no post yields an outcome, no request is issued and the
    tree is left as it was. *)
Theorem one_outcome_per_task thread_data thread_title (s : state)
    (webms : list dict) :
  extract_webms thread_data = ret webms ->
  webms <> [] ->
  if can_makedirs E (fs s) (sanitize_filename thread_title)
  then
    exists outs s',
      download_webms E thread_data thread_title s = (Ok (Processed outs), s')
      /\ Forall2 outcome_of_post webms outs
      /\ exists reqs, requests s' = requests s ++ reqs
                      /\ reqs `sublist_of` task_urls webms
  else
    download_webms E thread_data thread_title s
    = (Ok MkdirFailed,
       mkState (fs s)
         (log s ++ [LogMkdirError (sanitize_filename thread_title)])
         (requests s) None).
Proof.
  intros Hext Hne.
  destruct webms as [|webm webms]; [congruence|].
  set (ws := webm :: webms) in *.
  destruct (can_makedirs E (fs s) (sanitize_filename thread_title)) eqn:Hmk;
    unfold download_webms, bind at 1 2, modify; rewrite Hext;
    unfold ret at 1; cbv beta iota; unfold ws at 1; fold ws;
    unfold bind at 1, try_except, bind at 1; rewrite makedirs_result;
    cbv beta iota zeta;
    change (fs (mkState (fs s) (log s) (requests s) None)) with (fs s);
    rewrite Hmk.
  - unfold ret at 1. cbv beta iota.
    unfold bind at 1, logger, modify. cbv beta iota. unfold bind at 1.
    match goal with
    | |- context [for_each_webm E ?st ws ?s0] =>
      destruct (for_each_webm_outcomes st ws s0)
        as (outs & s2 & Hfe & Hall & reqs & Hreq & Hsub)
    end.
    rewrite Hfe. simpl.
    exists outs, s2. split; [reflexivity|]. split; [exact Hall|].
    exists reqs. split; [|exact Hsub].
    rewrite Hreq. simpl. destruct (fs s !! _); reflexivity.
  - simpl. destruct (fs s !! sanitize_filename thread_title); reflexivity.
Qed.

End Download.

(** ** The log is write-only *)

Section LogBlind.

Variable E : env.

Lemma same_world_refl s : same_world s s.
Proof. repeat split. Qed.

Lemma blind_ret {A} (a : A) : blind (ret a) (ret a).
Proof. intros s1 s2 Hs. split; [reflexivity | exact Hs]. Qed.

Lemma blind_raise {A} (e : exn) : blind (@raise A e) (raise e).
Proof. intros s1 s2 Hs. split; [reflexivity | exact Hs]. Qed.

Lemma blind_bind {A B} (m1 m2 : M A) (k1 k2 : A -> M B) :
  blind m1 m2 -> (forall a, blind (k1 a) (k2 a)) ->
  blind (bind m1 k1) (bind m2 k2).
Proof.
  intros Hm Hk s1 s2 Hs. unfold bind.
  destruct (Hm s1 s2 Hs) as [Hr Hw].
  destruct (m1 s1) as [r1 s1'], (m2 s2) as [r2 s2']. simpl in *. subst r2.
  destruct r1 as [a|e]; [now apply Hk | split; [reflexivity | exact Hw]].
Qed.

Lemma blind_try {A} (m1 m2 : M A) h1 h2 :
  blind m1 m2 -> handlers_blind h1 h2 ->
  blind (try_except m1 h1) (try_except m2 h2).
Proof.
  intros Hm Hh s1 s2 Hs. unfold try_except.
  destruct (Hm s1 s2 Hs) as [Hr Hw].
  destruct (m1 s1) as [r1 s1'], (m2 s2) as [r2 s2']. simpl in *. subst r2.
  destruct r1 as [a|e]; [split; [reflexivity | exact Hw]|].
  specialize (Hh e). destruct (h1 e), (h2 e); try contradiction.
  - now apply Hh.
  - split; [reflexivity | exact Hw].
Qed.

Lemma blind_state {A} (k1 k2 : state -> M A) :
  (forall s1 s2, same_world s1 s2 -> blind (k1 s1) (k2 s2)) ->
  blind (bind get_state k1) (bind get_state k2).
Proof. intros Hk s1 s2 Hs. unfold bind, get_state. now apply Hk. Qed.

Lemma blind_logger e1 e2 : blind (logger e1) (logger e2).
Proof. intros s1 s2 Hs. split; [reflexivity | exact Hs]. Qed.

Lemma blind_set_filename f : blind (set_filename f) (set_filename f).
Proof.
  intros s1 s2 (Hfs & Hreq & _). split; [reflexivity|]. repeat split; assumption.
Qed.

Lemma blind_makedirs p : blind (makedirs E p) (makedirs E p).
Proof.
  intros s1 s2 Hs. pose proof Hs as (Hfs & Hreq & Hfn).
  unfold makedirs. rewrite Hfs.
  destruct (fs s2 !! p) as [[|c]|]; try (split; [reflexivity | exact Hs]).
  destruct (makedirs_denied E p); [split; [reflexivity | exact Hs]|].
  split; [reflexivity|]. repeat split; simpl; congruence.
Qed.

Lemma blind_open_xb p : blind (open_xb E p) (open_xb E p).
Proof.
  intros s1 s2 Hs. pose proof Hs as (Hfs & Hreq & Hfn).
  unfold open_xb. rewrite Hfs.
  destruct (path_exists (fs s2) p); [split; [reflexivity | exact Hs]|].
  destruct (open_denied E p); [split; [reflexivity | exact Hs]|].
  split; [reflexivity|]. repeat split; simpl; congruence.
Qed.

Lemma blind_write p chunk : blind (write E p chunk) (write E p chunk).
Proof.
  intros s1 s2 Hs. pose proof Hs as (Hfs & Hreq & Hfn).
  unfold write. rewrite Hfs.
  destruct (fs s2 !! p) as [[|c]|]; try (split; [reflexivity | exact Hs]).
  destruct (write_denied E p (length c)); [split; [reflexivity | exact Hs]|].
  split; [reflexivity|]. repeat split; simpl; congruence.
Qed.

Lemma blind_remove p : blind (remove E p) (remove E p).
Proof.
  intros s1 s2 Hs. pose proof Hs as (Hfs & Hreq & Hfn).
  unfold remove. rewrite Hfs.
  destruct (fs s2 !! p) as [[|c]|]; try (split; [reflexivity | exact Hs]).
  destruct (remove_denied E p); [split; [reflexivity | exact Hs]|].
  split; [reflexivity|]. repeat split; simpl; congruence.
Qed.

Lemma blind_requests_get u : blind (requests_get E u) (requests_get E u).
Proof.
  intros s1 s2 (Hfs & Hreq & Hfn). unfold requests_get. rewrite Hfs, Hreq.
  destruct (http_get E (length (requests s2)) u);
    (split; [reflexivity|]); repeat split; simpl; congruence.
Qed.

Lemma blind_iter_content p fin body : forall w,
  blind (iter_content E p body fin w) (iter_content E p body fin w).
Proof.
  induction body as [|chunk body IH]; intros w; simpl.
  - destruct fin; [apply blind_ret | apply blind_raise | apply blind_raise].
  - destruct chunk as [|b chunk]; [apply IH|].
    apply blind_bind; [apply blind_write | intros _; apply IH].
Qed.

Lemma blind_store_response p body fin :
  blind (store_response E p body fin) (store_response E p body fin).
Proof.
  unfold store_response. apply blind_try.
  - apply blind_bind; [apply blind_open_xb | intros _].
    apply blind_bind; [apply blind_iter_content | intros n].
    apply blind_bind; [apply blind_logger | intros _; apply blind_ret].
  - intros e. destruct (isinstance e FileExistsError); [|exact I].
    apply blind_bind; [apply blind_logger | intros _; apply blind_ret].
Qed.

Lemma blind_read_filename : blind read_filename read_filename.
Proof.
  unfold read_filename. apply blind_state. intros s1 s2 (_ & _ & Hfn).
  rewrite Hfn. destruct (filename s2); [apply blind_ret | apply blind_raise].
Qed.

Lemma blind_cleanup p : blind (cleanup E p) (cleanup E p).
Proof.
  unfold cleanup. apply blind_state. intros s1 s2 (Hfs & _ & _).
  rewrite Hfs. destruct (path_exists (fs s2) p); [|apply blind_ret].
  apply blind_try; [apply blind_remove|].
  intros e. destruct (isinstance e OSError); [apply blind_ret | exact I].
Qed.

Lemma blind_transport_handler u p :
  handlers_blind (transport_handler E u p) (transport_handler E u p).
Proof.
  intros e. unfold transport_handler.
  assert (Hbody : forall entry,
    blind (logger entry ;;; read_filename ;;; cleanup E p ;;; ret (Failed e))
          (logger entry ;;; read_filename ;;; cleanup E p ;;; ret (Failed e))).
  { intros entry.
    apply blind_bind; [apply blind_logger | intros _].
    apply blind_bind; [apply blind_read_filename | intros _].
    apply blind_bind; [apply blind_cleanup | intros _; apply blind_ret]. }
  destruct (isinstance e Timeout); [apply Hbody|].
  destruct (isinstance e RequestException); [apply Hbody | exact I].
Qed.

Lemma blind_attempt u p : blind (attempt E u p) (attempt E u p).
Proof.
  unfold attempt. apply blind_try; [|apply blind_transport_handler].
  apply blind_bind; [apply blind_requests_get|].
  intros [[cl body] fin].
  apply blind_bind; [destruct cl; [apply blind_ret..|apply blind_raise]|].
  intros _. apply blind_bind; [apply blind_set_filename | intros _].
  apply blind_store_response.
Qed.

Lemma blind_process_webm safe_title webm :
  blind (process_webm E safe_title webm) (process_webm E safe_title webm).
Proof.
  unfold process_webm. apply blind_try.
  - apply blind_bind.
    + unfold sanitize_filename_value.
      destruct (negb (truthy _)); [apply blind_ret|].
      destruct (dict_get_default webm "filename" (JStr unnamed));
        first [apply blind_ret | apply blind_raise].
    + intros base. apply blind_state. intros s1 s2 (Hfs & _ & _).
      rewrite Hfs.
      destruct (path_exists (fs s2) _).
      { apply blind_bind; [apply blind_logger | intros _; apply blind_ret]. }
      destruct (negb (truthy _)).
      { apply blind_bind; [apply blind_logger | intros _; apply blind_ret]. }
      apply blind_attempt.
  - intros e.
    apply blind_bind; [apply blind_logger | intros _; apply blind_ret].
Qed.

Lemma blind_for_each_webm safe_title webms :
  blind (for_each_webm E safe_title webms) (for_each_webm E safe_title webms).
Proof.
  induction webms as [|webm webms IH]; simpl; [apply blind_ret|].
  apply blind_bind; [apply blind_process_webm | intros o].
  apply blind_bind; [exact IH | intros os; apply blind_ret].
Qed.

Lemma blind_extract_webms thread_data :
  blind (extract_webms thread_data) (extract_webms thread_data).
Proof.
  intros s1 s2 Hs. rewrite !extract_webms_pure. split; [reflexivity | exact Hs].
Qed.

Lemma blind_download_webms thread_data thread_title :
  blind (download_webms E thread_data thread_title)
        (download_webms E thread_data thread_title).
Proof.
  unfold download_webms. apply blind_bind.
  { intros s1 s2 (Hfs & Hreq & _). split; [reflexivity|].
    repeat split; assumption. }
  intros _. apply blind_bind; [apply blind_extract_webms|].
  intros webms. destruct webms as [|webm webms].
  { apply blind_bind; [apply blind_logger | intros _; apply blind_ret]. }
  apply blind_bind.
  - apply blind_try.
    + apply blind_bind; [apply blind_makedirs | intros _; apply blind_ret].
    + intros e. destruct (isinstance e OSError); [|exact I].
      apply blind_bind; [apply blind_logger | intros _; apply blind_ret].
  - intros created. destruct created; [|apply blind_ret].
    apply blind_bind; [apply blind_logger | intros _].
    apply blind_bind; [apply blind_for_each_webm | intros outs; apply blind_ret].
Qed.

End LogBlind.

(** ** The completion loop *)

Section Session.

Variable E : env.

(** No exception escapes the loop body, and the entry it adds depends on
    the fetch and on the shape of the payload alone. *)
Lemma process_future_entry t f s :
  exists en s',
    process_future E t f s = (Ok (tally_add t en), s') /\ entry_of f en.
Proof.
  destruct f as [[thread_id thread_title] r].
  unfold process_future, try_except, bind at 1, future_result.
  destruct r as [thread_data|e].
  - unfold ret at 1. cbv beta iota. unfold bind at 1, logger, modify.
    cbv beta iota. unfold bind at 1.
    match goal with
    | |- context [download_webms E thread_data thread_title ?s0] =>
      destruct (download_webms_result E thread_data thread_title s0)
        as (rd & s1 & Hdw & Hrd)
    end.
    rewrite Hdw.
    destruct (payload_webms thread_data) as [webms|e] eqn:Hp.
    + destruct Hrd as [d ->].
      exists (thread_id, Done d). eexists. split.
      * unfold tally_add. simpl. rewrite Nat.add_0_r. reflexivity.
      * split; [reflexivity|]. unfold disposition. simpl. rewrite Hp. eauto.
    + subst rd. exists (thread_id, Errored e). eexists. split.
      * unfold tally_add. simpl. rewrite Nat.add_0_r. reflexivity.
      * split; [reflexivity|]. unfold disposition. simpl. now rewrite Hp.
  - exists (thread_id, Errored e). eexists. split.
    + unfold raise, tally_add. simpl. rewrite Nat.add_0_r. reflexivity.
    + split; reflexivity.
Qed.

Lemma count_done_app l1 l2 : count_done (l1 ++ l2) = count_done l1 + count_done l2.
Proof. unfold count_done. now rewrite List.filter_app, length_app. Qed.

Lemma count_errored_app l1 l2 :
  count_errored (l1 ++ l2) = count_errored l1 + count_errored l2.
Proof. unfold count_errored. now rewrite List.filter_app, length_app. Qed.

Lemma process_futures_entries futs : forall t s,
  exists entries s',
    process_futures E t futs s
      = (Ok (mkTally (successful_downloads t + count_done entries)
                     (failed_downloads t + count_errored entries)
                     (report t ++ entries)), s')
    /\ Forall2 entry_of futs entries.
Proof.
  induction futs as [|f futs IH]; intros t s; simpl.
  - exists [], s. split; [|constructor].
    unfold ret, count_done, count_errored. simpl.
    rewrite !Nat.add_0_r, app_nil_r. now destruct t.
  - destruct (process_future_entry t f s) as (en & s1 & Hpf & Hen).
    destruct (IH (tally_add t en) s1) as (entries & s2 & Hrest & Hall).
    unfold bind. rewrite Hpf, Hrest.
    exists (en :: entries), s2. split; [|now constructor].
    f_equal. unfold tally_add. simpl.
    change (en :: entries) with ([en] ++ entries).
    rewrite count_done_app, count_errored_app, app_assoc.
    unfold count_done, count_errored. simpl.
    destruct (is_done en), (is_errored en); simpl; f_equal; f_equal; lia.
Qed.

Lemma session_entries futs s :
  exists entries s',
    session E futs s
      = (Ok (mkTally (count_done entries) (count_errored entries) entries), s')
    /\ Forall2 entry_of futs entries
    /\ last (log s')
       = Some (LogSessionCompleted (count_done entries) (count_errored entries)).
Proof.
  destruct (process_futures_entries futs (mkTally 0 0 []) s)
    as (entries & s1 & Hpf & Hall).
  unfold session, bind at 1. rewrite Hpf. simpl.
  eexists entries, _. split; [reflexivity|]. split; [exact Hall|].
  simpl. apply last_snoc.
Qed.

Lemma entries_ids futs entries :
  Forall2 entry_of futs entries -> map fst entries = map future_id futs.
Proof. induction 1 as [|f en futs entries [Hid _] _ IH]; simpl; congruence. Qed.

Lemma done_or_errored entries :
  count_done entries + count_errored entries = length entries.
Proof.
  unfold count_done, count_errored.
  induction entries as [|[id [d|e]] entries IH]; simpl; lia.
Qed.

Lemma no_entry_for (L : Z) futs entries :
  Forall2 entry_of futs entries ->
  L ∉ map future_id futs ->
  List.filter (fun en => (fst en =? L)%Z) entries = [].
Proof.
  induction 1 as [|f en futs entries [Hid _] _ IH]; simpl; [reflexivity|].
  intros Hnot. rewrite not_elem_of_cons in Hnot. destruct Hnot as [Hne Hnot].
  rewrite Hid. destruct (Z.eqb_spec (future_id f) L); [congruence|].
  now apply IH.
Qed.

Lemma one_entry_for (L : Z) title e futs entries :
  Forall2 entry_of futs entries ->
  NoDup (map future_id futs) ->
  (L, title, Raise e) ∈ futs ->
  List.filter (fun en => (fst en =? L)%Z) entries = [(L, Errored e)].
Proof.
  induction 1 as [|f en futs entries [Hid Hdisp] Hall IH]; simpl.
  - intros _ Hin. now apply elem_of_nil in Hin.
  - intros Hnd Hin. apply NoDup_cons in Hnd as [Hfresh Hnd].
    apply elem_of_cons in Hin as [<- | Hin].
    + unfold disposition in Hdisp. simpl in Hdisp, Hid.
      unfold future_id in Hid. simpl in Hid.
      rewrite Hid, Z.eqb_refl.
      rewrite (no_entry_for L _ _ Hall Hfresh).
      destruct en as [id st]. simpl in *. congruence.
    + assert (Hne : future_id f <> L).
      { intros Heq. apply Hfresh. rewrite Heq.
        apply (list_elem_of_fmap_2 future_id) in Hin. exact Hin. }
      rewrite Hid. destruct (Z.eqb_spec (future_id f) L); [congruence|].
      now apply IH.
Qed.

(** The loop body, case by case. *)
Lemma process_future_unfold t thread_id thread_title r s :
  process_future E t (thread_id, thread_title, r) s
  = match r with
    | Raise e =>
      (Ok (tally_add t (thread_id, Errored e)),
       mkState (fs s) (log s ++ [LogThreadError thread_title thread_id e])
         (requests s) (filename s))
    | Ok thread_data =>
      match download_webms E thread_data thread_title
              (mkState (fs s) (log s ++ [LogProcessing thread_title thread_id])
                 (requests s) (filename s)) with
      | (Ok d, s') => (Ok (tally_add t (thread_id, Done d)), s')
      | (Raise e, s') =>
        (Ok (tally_add t (thread_id, Errored e)),
         mkState (fs s') (log s' ++ [LogThreadError thread_title thread_id e])
           (requests s') (filename s'))
      end
    end.
Proof.
  unfold process_future, try_except, bind at 1, future_result, tally_add.
  destruct r as [thread_data|e]; simpl; [|now rewrite Nat.add_0_r].
  unfold bind, logger, modify, ret. simpl.
  destruct (download_webms E thread_data thread_title _) as [[d|e] s'];
    simpl; now rewrite Nat.add_0_r.
Qed.

(** Started in states that differ at most in their logs, and with any
    two tallies, the loop body adds the same entry. *)
Lemma process_future_coupled t1 t2 f s1 s2 :
  same_world s1 s2 ->
  exists en s1' s2',
    process_future E t1 f s1 = (Ok (tally_add t1 en), s1')
    /\ process_future E t2 f s2 = (Ok (tally_add t2 en), s2')
    /\ same_world s1' s2'.
Proof.
  intros Hs. destruct f as [[thread_id thread_title] r].
  rewrite !process_future_unfold.
  destruct r as [thread_data|e].
  - destruct (blind_download_webms E thread_data thread_title
                (mkState (fs s1) (log s1 ++ [LogProcessing thread_title thread_id])
                   (requests s1) (filename s1))
                (mkState (fs s2) (log s2 ++ [LogProcessing thread_title thread_id])
                   (requests s2) (filename s2)) Hs) as [Hr Hw].
    destruct (download_webms E thread_data thread_title (mkState (fs s1) _ _ _))
      as [r1 s1'].
    destruct (download_webms E thread_data thread_title (mkState (fs s2) _ _ _))
      as [r2 s2'].
    simpl in Hr, Hw. subst r2.
    destruct r1 as [d|e]; eexists _, _, _; (split; [reflexivity|]);
      (split; [reflexivity|]); exact Hw.
  - eexists _, _, _. split; [reflexivity|]. split; [reflexivity|]. exact Hs.
Qed.

Lemma tally_app_add t en entries :
  tally_app (tally_add t en) entries = tally_app t (en :: entries).
Proof.
  unfold tally_app, tally_add. simpl.
  change (en :: entries) with ([en] ++ entries).
  rewrite count_done_app, count_errored_app, <- app_assoc.
  unfold count_done, count_errored. simpl.
  destruct (is_done en), (is_errored en); simpl; f_equal; lia.
Qed.

Lemma process_futures_coupled futs : forall t1 t2 s1 s2,
  same_world s1 s2 ->
  exists entries s1' s2',
    process_futures E t1 futs s1 = (Ok (tally_app t1 entries), s1')
    /\ process_futures E t2 futs s2 = (Ok (tally_app t2 entries), s2')
    /\ same_world s1' s2'.
Proof.
  induction futs as [|f futs IH]; intros t1 t2 s1 s2 Hs; simpl.
  - exists [], s1, s2. unfold ret, tally_app, count_done, count_errored. simpl.
    rewrite !Nat.add_0_r, !app_nil_r. destruct t1, t2. auto.
  - destruct (process_future_coupled t1 t2 f s1 s2 Hs)
      as (en & u1 & u2 & H1 & H2 & Hu).
    destruct (IH (tally_add t1 en) (tally_add t2 en) u1 u2 Hu)
      as (entries & v1 & v2 & K1 & K2 & Hv).
    unfold bind. rewrite H1, H2, K1, K2.
    exists (en :: entries), v1, v2. rewrite !tally_app_add. auto.
Qed.

Lemma process_futures_app futs1 : forall futs2 t s,
  process_futures E t (futs1 ++ futs2) s
  = bind (process_futures E t futs1) (fun t' => process_futures E t' futs2) s.
Proof.
  induction futs1 as [|f futs1 IH]; intros futs2 t s; [reflexivity|].
  simpl. unfold bind at 1 2 3.
  destruct (process_future E t f s) as [[t1|e] s1]; [|reflexivity].
  rewrite IH. reflexivity.
Qed.

(** A failed listing leaves no trace on the others: the session with it
    and the session without it give the other listings the same entries
    and end with the same tree and the same requests. *)
Lemma session_without_failed futs1 futs2 (L : Z) title e s :
  exists entries1 entries2 s' s_rest,
    session E (futs1 ++ (L, title, Raise e) :: futs2) s
      = (Ok (tally_app (mkTally 0 0 [])
               (entries1 ++ (L, Errored e) :: entries2)), s')
    /\ session E (futs1 ++ futs2) s
       = (Ok (tally_app (mkTally 0 0 []) (entries1 ++ entries2)), s_rest)
    /\ same_world s' s_rest.
Proof.
  destruct (process_futures_coupled futs1 (mkTally 0 0 []) (mkTally 0 0 []) s s
              (same_world_refl s)) as (entries1 & s1 & s1b & H1 & H1b & _).
  assert (s1b = s1) as -> by congruence. clear H1b.
  set (t1 := tally_app (mkTally 0 0 []) entries1) in *.
  destruct (process_futures_coupled futs2 (tally_add t1 (L, Errored e)) t1
              (mkState (fs s1) (log s1 ++ [LogThreadError title L e])
                 (requests s1) (filename s1)) s1)
    as (entries2 & s2 & s2r & H2 & H2r & Hw); [repeat split|].
  exists entries1, entries2.
  eexists (mkState (fs s2) _ (requests s2) (filename s2)),
          (mkState (fs s2r) _ (requests s2r) (filename s2r)).
  unfold session, bind at 1 3. rewrite !process_futures_app.
  unfold bind at 1 3. rewrite H1. cbv beta iota.
  change (process_futures E t1 ((L, title, Raise e) :: futs2) s1)
    with (bind (process_future E t1 (L, title, Raise e))
            (fun t' => process_futures E t' futs2) s1).
  unfold bind at 1. rewrite process_future_unfold. cbv beta iota.
  rewrite H2, H2r.
  assert (Ht : forall entries,
    tally_app t1 entries = tally_app (mkTally 0 0 []) (entries1 ++ entries)).
  { intros entries. unfold t1, tally_app. simpl.
    rewrite count_done_app, count_errored_app. f_equal; lia. }
  rewrite tally_app_add, !Ht. unfold bind, logger, modify, ret. simpl.
  split; [reflexivity|]. split; [reflexivity|]. exact Hw.
Qed.

(** C2: when the fetch of a selected listing L failed, with whatever
    exception, the loop ends normally. The report holds exactly one entry
    for L, which is errored and so carries no attachment outcome;
    handling L's future adds that entry, one count and one log line and
    nothing else: no request, no change to the tree. Every selected
    listing has its entry, in completion order, and the entry of every
    other listing is the one its own fetch and payload call for: done
    when it was fetched and its payload is well formed, errored with its
    own exception otherwise. The two counters count those entries and add
    up to the number of listings. L's failure leaves no trace on the
    others: the session without L gives them the same entries and ends
    with the same tree and the same requests. The ids of the selection
    are distinct. *)
Theorem failed_fetch_isolated (futs : list future) (s : state)
    (L : Z) (title : string) (e : exn) :
  NoDup (map future_id futs) ->
  (L, title, Raise e) ∈ futs ->
  exists t s',
    session E futs s = (Ok t, s')
    /\ List.filter (fun en => (fst en =? L)%Z) (report t) = [(L, Errored e)]
    /\ map fst (report t) = map future_id futs
    /\ successful_downloads t + failed_downloads t = length futs
    /\ Forall2 entry_of futs (report t)
    /\ successful_downloads t = count_done (report t)
    /\ failed_downloads t = count_errored (report t)
    /\ (forall t0 s0,
          process_future E t0 (L, title, Raise e) s0
          = (Ok (mkTally (successful_downloads t0) (failed_downloads t0 + 1)
                   (report t0 ++ [(L, Errored e)])),
             mkState (fs s0) (log s0 ++ [LogThreadError title L e])
               (requests s0) (filename s0)))
    /\ exists futs1 futs2 entries1 entries2 t_rest s_rest,
         futs = futs1 ++ (L, title, Raise e) :: futs2
         /\ report t = entries1 ++ (L, Errored e) :: entries2
         /\ session E (futs1 ++ futs2) s = (Ok t_rest, s_rest)
         /\ report t_rest = entries1 ++ entries2
         /\ fs s' = fs s_rest
         /\ requests s' = requests s_rest.
Proof.
  intros Hnd Hin.
  destruct (session_entries futs s) as (entries & s' & Hs & Hall & _).
  eexists _, s'. split; [exact Hs|]. simpl.
  split; [exact (one_entry_for L title e _ _ Hall Hnd Hin)|].
  split; [exact (entries_ids _ _ Hall)|].
  split; [rewrite done_or_errored; symmetry; exact (Forall2_length _ _ _ Hall)|].
  split; [exact Hall|]. split; [reflexivity|]. split; [reflexivity|].
  split; [intros t0 s0; reflexivity|].
  apply list_elem_of_split in Hin as (futs1 & futs2 & ->).
  destruct (session_without_failed futs1 futs2 L title e s)
    as (entries1 & entries2 & s1 & s_rest & Hwith & Hrest & Hfs & Hreq & _).
  rewrite Hs in Hwith. injection Hwith as _ _ Hentries Hs1. subst s1.
  exists futs1, futs2, entries1, entries2. eexists _, s_rest.
  split; [reflexivity|]. split; [exact Hentries|].
  split; [exact Hrest|]. simpl. auto.
Qed.

(** C6, amended: the session ends normally and its summary line carries
    the number of listings counted as succeeded and the number counted as
    errored. A listing is errored when its fetch raised or when its
    payload makes the comprehension raise, and succeeded otherwise:
    the outcomes of its attachments play no part, so it counts as
    succeeded even when every one of them failed. *)
Theorem disposition_ignores_attachments (futs : list future) (s : state) :
  exists t s',
    session E futs s = (Ok t, s')
    /\ last (log s')
       = Some (LogSessionCompleted (successful_downloads t) (failed_downloads t))
    /\ successful_downloads t = count_done (report t)
    /\ failed_downloads t = count_errored (report t)
    /\ Forall2 entry_of futs (report t).
Proof.
  destruct (session_entries futs s) as (entries & s' & Hs & Hall & Hlast).
  eexists _, s'. split; [exact Hs|]. simpl. auto.
Qed.

End Session.

(** ** Instances and counterexamples *)

Section Examples.

Lemma falsy_tim_is_dropped_witness :
  truthy (tim_of (post_a (JNum 0))) = false
  /\ dict_get post_a_no_tim "tim" = None
  /\ process_webm env_ok "t" (post_a (JNum 0)) (initial tree_t)
     = process_webm env_ok "t" post_a_no_tim (initial tree_t)
  /\ requests (snd (process_webm env_ok "t" (post_a (JNum 0)) (initial tree_t)))
     = [].
Proof.
  split; [reflexivity|]. split; [reflexivity|].
  destruct (falsy_tim_is_dropped env_ok "t" (post_a (JNum 0)) post_a_no_tim
              (initial tree_t) eq_refl eq_refl eq_refl) as (H1 & H2 & _).
  split; [exact H1 | exact H2].
Defined.

Lemma lost_race_is_skipped_witness :
  path_exists (interfere (racing (serve StreamOk)) 0 tree_t) "t/a.webm" = true
  /\ fst (process_webm (racing (serve StreamOk)) "t" (post_a (JNum 1))
            (initial tree_t))
     = Ok (Skipped (get_unique_filepath tree_t "t" "a" ".webm"))
  /\ fs (snd (process_webm (racing (serve StreamOk)) "t" (post_a (JNum 1))
                (initial tree_t)))
     = interfere (racing (serve StreamOk)) 0 tree_t.
Proof.
  split; [vm_compute; reflexivity|].
  destruct (lost_race_is_skipped (racing (serve StreamOk)) "t" (post_a (JNum 1))
              (initial tree_t) "a" CLAbsent [["x"%byte]] StreamOk)
    as (H1 & H2 & _);
    [reflexivity | reflexivity | reflexivity | discriminate
    | vm_compute; reflexivity |].
  split; [exact H1 | exact H2].
Defined.

Lemma partial_file_cleanup_witness :
  path_exists tree_t "t/a.webm" = false
  /\ fst (process_webm (calm (serve2 StreamTimeout) (fun _ => ListingError)) "t"
            (post_a (JNum 1)) (initial tree_t))
     = Ok (Failed Timeout)
  /\ fs (snd (process_webm (calm (serve2 StreamTimeout) (fun _ => ListingError))
                "t" (post_a (JNum 1)) (initial tree_t)))
     = tree_t.
Proof.
  split; [vm_compute; reflexivity|].
  pose proof (partial_file_cleanup
                (calm (serve2 StreamTimeout) (fun _ => ListingError)) "t"
                (post_a (JNum 1)) (initial tree_t) "a" CLAbsent
                [["x"%byte]; ["y"%byte]] StreamTimeout
                eq_refl eq_refl eq_refl) as H.
  destruct H as (H1 & H2 & _);
    [discriminate | vm_compute; reflexivity | reflexivity
    | intros n; reflexivity |].
  split; [exact H1 | exact H2].
Defined.

Lemma one_outcome_per_task_witness :
  (exists outs s',
     download_webms env_ok (payload [post_a (JNum 1); post_a (JNum 0)]) "t"
       (initial ∅) = (Ok (Processed outs), s')
     /\ Forall2 outcome_of_post [post_a (JNum 1); post_a (JNum 0)] outs
     /\ exists reqs, requests s' = requests (initial ∅) ++ reqs
                     /\ reqs `sublist_of` task_urls [post_a (JNum 1); post_a (JNum 0)])
  /\ download_webms env_ok (payload [post_a (JNum 1)]) "t" (initial tree_file_t)
     = (Ok MkdirFailed, mkState tree_file_t [LogMkdirError "t"] [] None).
Proof.
  split.
  - exact (one_outcome_per_task env_ok
             (payload [post_a (JNum 1); post_a (JNum 0)]) "t" (initial ∅)
             [post_a (JNum 1); post_a (JNum 0)] eq_refl
             ltac:(discriminate)).
  - exact (one_outcome_per_task env_ok (payload [post_a (JNum 1)]) "t"
             (initial tree_file_t) [post_a (JNum 1)] eq_refl
             ltac:(discriminate)).
Defined.

Lemma failed_fetch_isolated_witness :
  exists t s',
    session env_ok two_futures (initial ∅) = (Ok t, s')
    /\ List.filter (fun en => (fst en =? 1)%Z) (report t) = [(1%Z, Errored Timeout)]
    /\ map fst (report t) = map future_id two_futures
    /\ successful_downloads t + failed_downloads t = length two_futures
    /\ Forall2 entry_of two_futures (report t)
    /\ successful_downloads t = count_done (report t)
    /\ failed_downloads t = count_errored (report t)
    /\ (forall t0 s0,
          process_future env_ok t0 (1%Z, "a", Raise Timeout) s0
          = (Ok (mkTally (successful_downloads t0) (failed_downloads t0 + 1)
                   (report t0 ++ [(1%Z, Errored Timeout)])),
             mkState (fs s0) (log s0 ++ [LogThreadError "a" 1 Timeout])
               (requests s0) (filename s0)))
    /\ exists futs1 futs2 entries1 entries2 t_rest s_rest,
         two_futures = futs1 ++ (1%Z, "a", Raise Timeout) :: futs2
         /\ report t = entries1 ++ (1%Z, Errored Timeout) :: entries2
         /\ session env_ok (futs1 ++ futs2) (initial ∅) = (Ok t_rest, s_rest)
         /\ report t_rest = entries1 ++ entries2
         /\ fs s' = fs s_rest
         /\ requests s' = requests s_rest.
Proof.
  apply (failed_fetch_isolated env_ok two_futures (initial ∅) 1%Z "a" Timeout).
  - apply (bool_decide_unpack _). vm_compute. exact I.
  - apply list_elem_of_here.
Defined.

(** C3, as stated, fails twice. With [os.remove] failing after a timeout
    in mid-stream, the partial file stays and the log is the very log of
    the run in which the removal succeeds: the failure is not logged.
    With [f.write] failing in mid-stream, the iteration ends as failed
    and the partial file stays although no removal failed: none is
    attempted. *)
Lemma removal_failure_is_silent :
  (fst (process_webm (calm_no_remove (serve2 StreamTimeout)) "t"
          (post_a (JNum 1)) (initial tree_t)) = Ok (Failed Timeout)
   /\ fs (snd (process_webm (calm_no_remove (serve2 StreamTimeout)) "t"
                 (post_a (JNum 1)) (initial tree_t))) !! "t/a.webm"
      = Some (File ["x"%byte; "y"%byte])
   /\ fs (snd (process_webm (calm (serve2 StreamTimeout) (fun _ => ListingError))
                 "t" (post_a (JNum 1)) (initial tree_t))) !! "t/a.webm"
      = None
   /\ log (snd (process_webm (calm_no_remove (serve2 StreamTimeout)) "t"
                  (post_a (JNum 1)) (initial tree_t)))
      = log (snd (process_webm (calm (serve2 StreamTimeout) (fun _ => ListingError))
                    "t" (post_a (JNum 1)) (initial tree_t))))
  /\ (fst (process_webm (calm_disk_full (serve2 StreamOk)) "t"
             (post_a (JNum 1)) (initial tree_t)) = Ok (Failed OSError)
      /\ fs (snd (process_webm (calm_disk_full (serve2 StreamOk)) "t"
                    (post_a (JNum 1)) (initial tree_t))) !! "t/a.webm"
         = Some (File ["x"%byte])
      /\ log (snd (process_webm (calm_disk_full (serve2 StreamOk)) "t"
                     (post_a (JNum 1)) (initial tree_t)))
         = [LogUnexpected OSError]).
Proof. vm_compute. repeat split. Qed.

(** C4, as stated, fails: the post a with [tim] 1 is a task of the
    fetched listing, but the directory name is taken by a regular file,
    [download_webms] returns on line 105, and the task has no outcome and
    no request. *)
Lemma mkdir_failure_drops_tasks :
  extract_webms (payload [post_a (JNum 1)]) = ret [post_a (JNum 1)]
  /\ truthy (tim_of (post_a (JNum 1))) = true
  /\ fst (download_webms env_ok (payload [post_a (JNum 1)]) "t"
            (initial tree_file_t)) = Ok MkdirFailed
  /\ requests (snd (download_webms env_ok (payload [post_a (JNum 1)]) "t"
                      (initial tree_file_t))) = []
  /\ log (snd (download_webms env_ok (payload [post_a (JNum 1)]) "t"
                 (initial tree_file_t))) = [LogMkdirError "t"].
Proof. repeat split; vm_compute; reflexivity. Qed.

(** C6, as stated, fails: both attachments of the fetched listing fail,
    and the listing still counts as succeeded. *)
Lemma all_failed_still_succeeded :
  fst (run env_broken selection (initial ∅))
  = Ok (mkTally 1 0
          [(7%Z, Done (Processed [Failed RequestException;
                                  Failed RequestException]))])
  /\ last (log (snd (run env_broken selection (initial ∅))))
     = Some (LogSessionCompleted 1 0).
Proof. split; vm_compute; reflexivity. Qed.

(** C1 on the code: a second run over the tree the first run left issues
    the request again and stores the same attachment a second time,
    under the next free name. *)
Lemma second_run_downloads_again :
  fs (snd (run env_ok selection (initial ∅))) !! "t/a.webm"
    = Some (File ["x"%byte])
  /\ requests (snd (run env_ok selection
                      (initial (fs (snd (run env_ok selection (initial ∅))))))) 
     = [file_url (JNum 1)]
  /\ fst (run env_ok selection
            (initial (fs (snd (run env_ok selection (initial ∅))))))
     = Ok (mkTally 1 0 [(7%Z, Done (Processed [Downloaded "t/a_1.webm" 1]))])
  /\ fs (snd (run env_ok selection
                (initial (fs (snd (run env_ok selection (initial ∅)))))))
       !! "t/a_1.webm"
     = Some (File ["x"%byte]).
Proof. repeat split; vm_compute; reflexivity. Qed.

Lemma every_task_requests_witness :
  path_exists tree_done "t/a.webm" = true
  /\ requests (snd (process_webm env_ok "t" (post_a (JNum 1)) (initial tree_done)))
     = [file_url (JNum 1)].
Proof.
  split; [vm_compute; reflexivity|].
  exact (every_task_requests env_ok "t" (post_a (JNum 1)) (initial tree_done)
           "a" eq_refl eq_refl).
Defined.

Lemma sanitize_spec_agrees_witness :
  sanitize_filename "a<b" = sanitize_spec "a<b".
Proof.
  apply sanitize_spec_agrees. repeat constructor.
Defined.

End Examples.

(** * Further properties *)

(** ** More on [sanitize_filename] *)

Section SanitizeMore.

Lemma control_not_reserved c : is_control c = true -> is_reserved c = false.
Proof. destruct c as [[] [] [] [] [] [] [] []]; vm_compute; congruence. Qed.

Lemma control_not_strip c : is_control c = true -> is_strip c = false.
Proof. destruct c as [[] [] [] [] [] [] [] []]; vm_compute; congruence. Qed.

Lemma strip_not_reserved c : is_strip c = true -> is_reserved c = false.
Proof. destruct c as [[] [] [] [] [] [] [] []]; vm_compute; congruence. Qed.

Lemma strip_not_control c : is_strip c = true -> is_control c = false.
Proof. destruct c as [[] [] [] [] [] [] [] []]; vm_compute; congruence. Qed.

Lemma sub_reserved_id l :
  Forall (fun c => is_reserved c = false) l -> sub_reserved l = l.
Proof.
  induction 1 as [|c l Hc _ IH]; [reflexivity|].
  unfold sub_reserved in *. simpl. now rewrite Hc, IH.
Qed.

Lemma sub_control_id l :
  Forall (fun c => is_control c = false) l -> sub_control l = l.
Proof.
  induction 1 as [|c l Hc _ IH]; [reflexivity|].
  unfold sub_control in *. simpl. now rewrite Hc, IH.
Qed.

Lemma lstrip_id l :
  (forall c, head l = Some c -> is_strip c = false) -> lstrip l = l.
Proof.
  destruct l as [|a l]; [reflexivity|]. intros H. simpl.
  now rewrite (H a eq_refl).
Qed.

Lemma head_rev_last (l : list ascii) : head (rev l) = last l.
Proof.
  induction l as [|x l _] using rev_ind; [reflexivity|].
  now rewrite rev_unit, last_snoc.
Qed.

Lemma strip_id l :
  (forall c, head l = Some c -> is_strip c = false) ->
  (forall c, last l = Some c -> is_strip c = false) ->
  strip l = l.
Proof.
  intros Hh Hl. unfold strip. rewrite (lstrip_id l Hh).
  rewrite lstrip_id; [apply rev_involutive|].
  intros c Hc. apply Hl. now rewrite <- head_rev_last.
Qed.

(** X3: a name that is already safe is returned as it is. *)
Theorem sanitize_filename_safe_name (name : string) :
  name <> EmptyString ->
  String.length name <= 200 ->
  Forall (fun c => is_reserved c = false /\ is_control c = false) (chars name) ->
  (forall c, head (chars name) = Some c -> is_strip c = false) ->
  (forall c, last (chars name) = Some c -> is_strip c = false) ->
  sanitize_filename name = name.
Proof.
  intros Hne Hlen Hall Hh Hl.
  rewrite sanitize_filename_pipeline. unfold sanitize_amended.
  rewrite sub_reserved_id by (eapply List.Forall_impl; [|exact Hall]; simpl; tauto).
  rewrite strip_id by assumption.
  rewrite sub_control_id by (eapply List.Forall_impl; [|exact Hall]; simpl; tauto).
  rewrite firstn_all2 by (rewrite length_chars; exact Hlen).
  destruct (chars name) eqn:Hc.
  - exfalso. apply Hne. apply chars_inj. now rewrite Hc.
  - rewrite <- Hc. apply str_chars.
Qed.

(** X4: the strip of line 36 runs before the control characters are deleted
    on line 37: a name of dots and spaces wrapped in control characters
    comes out unstripped. *)
Theorem sanitize_filename_wrapped_dots (c1 c2 : ascii) (x : list ascii) :
  is_control c1 = true ->
  is_control c2 = true ->
  Forall (fun a => is_strip a = true) x ->
  x <> [] ->
  length x <= 200 ->
  sanitize_filename (str (c1 :: x ++ [c2])) = str x.
Proof.
  intros H1 H2 Hx Hne Hlen.
  rewrite sanitize_filename_pipeline. unfold sanitize_amended.
  rewrite chars_str.
  rewrite sub_reserved_id.
  2:{ constructor; [now apply control_not_reserved|].
      apply Forall_app. split.
      - eapply List.Forall_impl; [|exact Hx]. apply strip_not_reserved.
      - constructor; [now apply control_not_reserved | constructor]. }
  rewrite strip_id.
  2:{ intros c [= <-]. now apply control_not_strip. }
  2:{ intros c Hc. change (c1 :: x ++ [c2]) with ((c1 :: x) ++ [c2]) in Hc.
      rewrite last_snoc in Hc. injection Hc as <-. now apply control_not_strip. }
  assert (Hfil : sub_control (c1 :: x ++ [c2]) = x).
  { unfold sub_control. simpl. rewrite H1. simpl.
    rewrite List.filter_app. simpl. rewrite H2. simpl. rewrite app_nil_r.
    apply sub_control_id.
    eapply List.Forall_impl; [|exact Hx]. apply strip_not_control. }
  rewrite Hfil, firstn_all2 by exact Hlen.
  destruct x; [congruence | reflexivity].
Qed.

End SanitizeMore.

(** ** More on [download_webms] *)

Section DownloadMore.

Variable E : env.

#[local] Arguments get_unique_filepath : simpl never.
#[local] Arguments sanitize_filename : simpl never.
#[local] Arguments basename : simpl never.
#[local] Arguments path_exists : simpl never.

Lemma select_webms_dicts (ps : list dict) s :
  select_webms (map JObj ps) s = (Ok (List.filter is_webm_post ps), s).
Proof.
  induction ps as [|post ps IH]; [reflexivity|].
  simpl. unfold bind. rewrite IH. unfold is_webm_post.
  destruct (eq_str _ _); reflexivity.
Qed.

(** X5: on a payload whose posts are a list of dicts the comprehension is the
    order-preserving filter on the extension; a payload without the key
    posts has no webm post (the list of dicts is then empty). *)
Theorem extract_webms_filter (kvs : dict) (ps : list dict) :
  dict_get_default kvs "posts" (JArr []) = JArr (map JObj ps) ->
  payload_webms (JObj kvs) = Ok (List.filter is_webm_post ps).
Proof.
  intros Hposts. unfold payload_webms, extract_webms, bind, get_posts.
  simpl. rewrite Hposts. simpl. now rewrite select_webms_dicts.
Qed.

Lemma select_webms_not_dict items s :
  Exists (fun v => is_dict v = false) items ->
  select_webms items s = (Raise AttributeError, s).
Proof.
  induction 1 as [v items Hv | v items _ IH].
  - destruct v; try discriminate; reflexivity.
  - destruct v; try reflexivity. simpl. unfold bind. now rewrite IH.
Qed.

(** X6: one element of posts that is not a dict makes the whole call raise
    AttributeError before anything is done: no directory, no request, no
    log line, whatever the other posts are. *)
Theorem malformed_post_aborts_listing (kvs : dict) (items : list json)
    (thread_title : string) (s : state) :
  dict_get_default kvs "posts" (JArr []) = JArr items ->
  Exists (fun v => is_dict v = false) items ->
  fst (download_webms E (JObj kvs) thread_title s) = Raise AttributeError
  /\ fs (snd (download_webms E (JObj kvs) thread_title s)) = fs s
  /\ requests (snd (download_webms E (JObj kvs) thread_title s)) = requests s
  /\ log (snd (download_webms E (JObj kvs) thread_title s)) = log s.
Proof.
  intros Hposts Hbad.
  unfold download_webms, bind at 1 2, modify, extract_webms, bind, get_posts.
  simpl. rewrite Hposts. simpl.
  rewrite (select_webms_not_dict _ _ Hbad). simpl. auto.
Qed.

(** X7: a listing without webm posts is reported and left: no directory is
    created for it and no request is issued. *)
Theorem no_webms_no_directory (thread_data : json) (thread_title : string)
    (s : state) :
  payload_webms thread_data = Ok [] ->
  download_webms E thread_data thread_title s
  = (Ok NoWebms,
     mkState (fs s) (log s ++ [LogNoWebms thread_title]) (requests s) None).
Proof.
  intros Hp. unfold download_webms, bind at 1 2, modify.
  rewrite extract_webms_pure, Hp. reflexivity.
Qed.

(** An attempt whose request raises goes straight to the handler, in the
    tree the other processes left. *)
Lemma attempt_request_raises u p s :
  http_get E (length (requests s)) u = GetTimeout
  \/ http_get E (length (requests s)) u = GetError ->
  attempt E u p s
  = match transport_handler E u p
            (request_exn (http_get E (length (requests s)) u)) with
    | Some h => h (mkState (interfere E (length (requests s)) (fs s)) (log s)
                     (requests s ++ [u]) (filename s))
    | None => (Raise (request_exn (http_get E (length (requests s)) u)),
               mkState (interfere E (length (requests s)) (fs s)) (log s)
                 (requests s ++ [u]) (filename s))
    end.
Proof.
  intros Hget. unfold attempt, try_except, bind at 1, requests_get.
  destruct Hget as [-> | ->]; reflexivity.
Qed.

(** X8: before the first response of a listing the local [filename] is
    unbound; a request that raises then makes the handler itself raise
    UnboundLocalError on its f-string: the iteration is logged twice, ends
    with that error, and the removal of lines 158-162 is not reached. *)
Theorem first_failure_unbound_filename safe_title (webm : dict) (s : state)
    base :
  sanitize_filename_value (dict_get_default webm "filename" (JStr unnamed))
    = ret base ->
  truthy (tim_of webm) = true ->
  filename s = None ->
  http_get E (length (requests s)) (file_url (tim_of webm)) = GetTimeout
  \/ http_get E (length (requests s)) (file_url (tim_of webm)) = GetError ->
  fst (process_webm E safe_title webm s) = Ok (Failed UnboundLocalError)
  /\ log (snd (process_webm E safe_title webm s))
     = log s
       ++ request_entry (http_get E (length (requests s)) (file_url (tim_of webm)))
            (file_url (tim_of webm))
       ++ [LogUnexpected UnboundLocalError]
  /\ fs (snd (process_webm E safe_title webm s))
     = interfere E (length (requests s)) (fs s).
Proof.
  intros Hsan Htim Hfn Hget.
  rewrite (process_webm_front _ _ _ _ base Hsan Htim).
  unfold try_except. rewrite (attempt_request_raises _ _ _ Hget).
  destruct Hget as [-> | ->]; simpl;
    unfold bind, logger, modify, read_filename, get_state; simpl;
    rewrite Hfn; simpl; rewrite <- app_assoc; auto.
Qed.

(** X9: when the request raises and the chosen path has meanwhile been
    created by another process, the removal of lines 158-162 deletes that
    process's file: the test is on existence, not on who created it. *)
Theorem failed_request_removes_foreign_file safe_title (webm : dict)
    (s : state) base f content :
  sanitize_filename_value (dict_get_default webm "filename" (JStr unnamed))
    = ret base ->
  truthy (tim_of webm) = true ->
  filename s = Some f ->
  http_get E (length (requests s)) (file_url (tim_of webm)) = GetTimeout
  \/ http_get E (length (requests s)) (file_url (tim_of webm)) = GetError ->
  interfere E (length (requests s)) (fs s)
    !! get_unique_filepath (fs s) safe_title base ".webm" = Some (File content) ->
  remove_denied E (get_unique_filepath (fs s) safe_title base ".webm") = false ->
  fst (process_webm E safe_title webm s)
  = Ok (Failed (request_exn
                  (http_get E (length (requests s)) (file_url (tim_of webm)))))
  /\ fs (snd (process_webm E safe_title webm s))
     = delete (get_unique_filepath (fs s) safe_title base ".webm")
         (interfere E (length (requests s)) (fs s)).
Proof.
  intros Hsan Htim Hfn Hget Hthere Hrm.
  rewrite (process_webm_front _ _ _ _ base Hsan Htim).
  set (p := get_unique_filepath (fs s) safe_title base ".webm") in *.
  set (u := file_url (tim_of webm)) in *.
  set (s0 := mkState (interfere E (length (requests s)) (fs s)) (log s)
               (requests s ++ [u]) (filename s)).
  assert (Hh : forall e, e = Timeout \/ e = RequestException ->
    exists s', match transport_handler E u p e with
               | Some h => h s0
               | None => (Raise e, s0)
               end = (Ok (Failed e), s')
               /\ fs s' = delete p (fs s0)).
  { intros e He.
    destruct (transport_handler_bound E u p e s0 f He Hfn)
      as (s' & Hs' & _ & _ & Hfs).
    exists s'. split; [exact Hs'|]. rewrite Hfs. simpl. fold p.
    rewrite Hthere, Hrm. reflexivity. }
  unfold try_except. rewrite (attempt_request_raises _ _ _ Hget). fold s0.
  destruct Hget as [-> | ->]; simpl request_exn.
  - destruct (Hh Timeout (or_introl eq_refl)) as (s' & -> & Hfs). simpl. auto.
  - destruct (Hh RequestException (or_intror eq_refl)) as (s' & -> & Hfs).
    simpl. auto.
Qed.

End DownloadMore.

(** ** The directory tree under a session without other writers *)

Section TreeFacts.

Variable E : env.
Hypothesis Hquiet : quiet E.

#[local] Arguments get_unique_filepath : simpl never.
#[local] Arguments sanitize_filename : simpl never.
#[local] Arguments basename : simpl never.
#[local] Arguments path_exists : simpl never.

Lemma path_free t p : path_exists t p = false -> t !! p = None.
Proof.
  unfold path_exists. intros H. apply bool_decide_eq_false in H.
  destruct (t !! p) eqn:Hl; [|reflexivity]. exfalso. apply H. eauto.
Qed.

(** The stream only rewrites the file it was opened on, and the count it
    returns is the number of bytes it appended. *)
Lemma iter_content_tree p fin body : forall w s c0 r s',
  fs s !! p = Some (File c0) ->
  iter_content E p body fin w s = (r, s') ->
  r <> Raise FileExistsError
  /\ exists c, fs s' = <[p := File c]> (fs s)
               /\ forall n, r = Ok n -> n + length c0 = w + length c.
Proof.
  induction body as [|chunk body IH]; intros w s c0 r s' Hp; simpl.
  - intros Hit.
    assert (s' = s /\ r = stream_result fin w) as [-> ->]
      by (destruct fin; injection Hit as <- <-; auto).
    split; [destruct fin; discriminate|]. exists c0.
    split; [symmetry; now apply insert_id|].
    intros n Hn. destruct fin; simpl in Hn; simplify_eq. lia.
  - destruct chunk as [|b chunk]; [now apply IH|].
    unfold bind, write. rewrite Hp.
    destruct (write_denied E p (length c0)).
    + intros [= <- <-]. split; [discriminate|]. exists c0.
      split; [symmetry; now apply insert_id | discriminate].
    + intros Hit.
      apply (IH _ _ (c0 ++ b :: chunk)) in Hit as (Hne & c & Hfs & Hn);
        [|simpl; apply lookup_insert_eq].
      split; [exact Hne|]. exists c. split.
      * rewrite Hfs. simpl. apply insert_insert_eq.
      * intros n Hr. specialize (Hn n Hr). rewrite length_app in Hn.
        simpl in *. lia.
Qed.

Lemma store_response_tree p body fin s r s' :
  path_exists (fs s) p = false ->
  store_response E p body fin s = (r, s') ->
  (fs s' = fs s \/ exists c, fs s' = <[p := File c]> (fs s))
  /\ filename s' = filename s
  /\ forall o, r = Ok o ->
       exists c, o = Downloaded p (length c) /\ fs s' = <[p := File c]> (fs s).
Proof.
  intros Hfree. unfold store_response, try_except, bind, open_xb.
  rewrite Hfree.
  destruct (open_denied E p).
  { simpl. intros [= <- <-]. split; [now left|]. split; [reflexivity|].
    discriminate. }
  destruct (iter_content E p body fin 0 (set_fs (insert p (File [])) s))
    as [ri s1] eqn:Hit.
  pose proof (iter_content_frame E p fin body 0
                (set_fs (insert p (File [])) s)) as (_ & _ & Hfn).
  rewrite Hit in Hfn. simpl in Hfn.
  apply (iter_content_tree _ _ _ _ _ []) in Hit as (Hne & c & Hfs & Hn);
    [|simpl; apply lookup_insert_eq].
  simpl in Hfs. rewrite insert_insert_eq in Hfs.
  destruct ri as [n|e]; simpl.
  - intros [= <- <-]. simpl. split; [right; eauto|]. split; [exact Hfn|].
    intros o [= <-]. exists c. split; [|exact Hfs].
    specialize (Hn n eq_refl). simpl in Hn. f_equal. lia.
  - destruct e; try congruence; simpl; intros [= <- <-]; simpl;
      (split; [right; eauto|]); (split; [exact Hfn|]); discriminate.
Qed.

Lemma transport_handler_tree u p e h s r s' :
  transport_handler E u p e = Some h ->
  h s = (r, s') ->
  (fs s' = fs s \/ fs s' = delete p (fs s))
  /\ forall o, r = Ok o -> o = Failed e.
Proof.
  unfold transport_handler.
  assert (Hbody : forall entry,
    (logger entry ;;; read_filename ;;; cleanup E p ;;; ret (Failed e)) s = (r, s') ->
    (fs s' = fs s \/ fs s' = delete p (fs s))
    /\ forall o, r = Ok o -> o = Failed e).
  { intros entry. unfold bind, logger, modify, read_filename, get_state. simpl.
    destruct (filename s) as [f|]; simpl.
    - destruct (cleanup_frame E p
                  (mkState (fs s) (log s ++ [entry]) (requests s) (Some f)))
        as (s1 & Hc & _ & Hfs).
      rewrite Hc. unfold ret. simpl. intros [= <- <-].
      split; [|now intros o [= <-]].
      rewrite Hfs. simpl.
      destruct (fs s !! p) as [[|c]|]; auto.
      destruct (remove_denied E p); auto.
    - intros [= <- <-]. split; [now left | discriminate]. }
  destruct (isinstance e Timeout); [intros [= <-]; apply Hbody|].
  destruct (isinstance e RequestException); [intros [= <-]; apply Hbody|].
  discriminate.
Qed.

Lemma attempt_tree u p s r s' :
  path_exists (fs s) p = false ->
  attempt E u p s = (r, s') ->
  forall o, r = Ok o -> tree_step (fs s) (fs s') o.
Proof.
  intros Hfree. pose proof (path_free _ _ Hfree) as Hnone.
  unfold attempt. unfold try_except at 1. unfold bind at 1, requests_get.
  rewrite Hquiet.
  set (s0 := mkState (fs s) (log s) (requests s ++ [u]) (filename s)).
  assert (Hhandle : forall e s1,
    (fs s1 = fs s \/ exists c, fs s1 = <[p := File c]> (fs s)) ->
    match transport_handler E u p e with
    | Some h => h s1
    | None => (Raise e, s1)
    end = (r, s') ->
    forall o, r = Ok o -> tree_step (fs s) (fs s') o).
  { intros e s1 Hs1.
    destruct (transport_handler E u p e) as [h|] eqn:Hh;
      [|intros [= <- <-]; discriminate].
    intros Hrun o Ho.
    destruct (transport_handler_tree _ _ _ _ _ _ _ Hh Hrun) as [Hfs Hfail].
    rewrite (Hfail o Ho).
    assert (Hback : fs s' = fs s \/ exists c, fs s' = <[p := File c]> (fs s)).
    { destruct Hfs as [-> | ->]; [exact Hs1|].
      left. destruct Hs1 as [-> | [c ->]];
        [now apply delete_id | now apply delete_insert_id]. }
    destruct Hback as [Hb | [c Hb]].
    - left. split; [exact Hb | discriminate].
    - right. exists p, c. split; [exact Hnone|]. split; [exact Hb|].
      discriminate. }
  destruct (http_get E (length (requests s)) u) as [| |cl body fin];
    [apply Hhandle; now left | apply Hhandle; now left|].
  destruct cl as [|z|]; simpl; [| |intros [= <- <-]; discriminate].
  - unfold bind, set_filename, modify. simpl.
    destruct (store_response E p body fin _) as [rs s1] eqn:Hst.
    apply store_response_tree in Hst as (Hfs & _ & Hdl); [|exact Hfree].
    simpl in Hfs, Hdl.
    destruct rs as [o1|e]; [|now apply Hhandle].
    intros [= <- <-] o [= <-].
    destruct (Hdl o1 eq_refl) as (c & -> & Hc).
    right. exists p, c. split; [exact Hnone|]. split; [exact Hc|].
    now intros q n [= <- <-].
  - unfold bind, set_filename, modify. simpl.
    destruct (store_response E p body fin _) as [rs s1] eqn:Hst.
    apply store_response_tree in Hst as (Hfs & _ & Hdl); [|exact Hfree].
    simpl in Hfs, Hdl.
    destruct rs as [o1|e]; [|now apply Hhandle].
    intros [= <- <-] o [= <-].
    destruct (Hdl o1 eq_refl) as (c & -> & Hc).
    right. exists p, c. split; [exact Hnone|]. split; [exact Hc|].
    now intros q n [= <- <-].
Qed.

Lemma process_webm_tree safe_title webm s o s' :
  process_webm E safe_title webm s = (Ok o, s') ->
  tree_step (fs s) (fs s') o.
Proof.
  unfold process_webm, try_except at 1, bind at 1.
  destruct (sanitize_filename_value_cases
              (dict_get_default webm "filename" (JStr unnamed)))
    as [[base Hsan] | Hsan]; rewrite Hsan.
  2:{ simpl. intros [= <- <-]. left. split; [reflexivity | discriminate]. }
  unfold ret at 1, bind at 1, get_state. cbv beta iota zeta.
  rewrite get_unique_filepath_free.
  destruct (negb (truthy (dict_get_default webm "tim" JNull))).
  { simpl. intros [= <- <-]. left. split; [reflexivity | discriminate]. }
  set (p := get_unique_filepath (fs s) safe_title base ".webm").
  destruct (attempt E _ p s) as [r s1] eqn:Hat.
  pose proof (attempt_tree _ _ _ _ _ (get_unique_filepath_free _ _ _ _) Hat)
    as Hstep.
  destruct r as [o1|e].
  - intros [= <- <-]. now apply Hstep.
  - simpl. intros [= <- <-].
    destruct (attempt_general E (file_url (dict_get_default webm "tim" JNull)) p s)
      as (r2 & s2 & Hat2 & _ & _).
    clear Hstep. revert Hat. unfold attempt. unfold try_except at 1.
    unfold bind at 1, requests_get. rewrite Hquiet.
    set (s0 := mkState (fs s) (log s) _ (filename s)).
    assert (Hh : forall e1 s3,
      (fs s3 = fs s \/ exists c, fs s3 = <[p := File c]> (fs s)) ->
      match transport_handler E (file_url (dict_get_default webm "tim" JNull)) p e1 with
      | Some h => h s3
      | None => (Raise e1, s3)
      end = (Raise e, s1) ->
      tree_step (fs s) (fs s1) (Failed e)).
    { intros e1 s3 Hs3.
      assert (Hkeep : forall t, (t = fs s3 \/ t = delete p (fs s3)) ->
                tree_step (fs s) t (Failed e)).
      { intros t Ht.
        assert (Hback : t = fs s \/ exists c, t = <[p := File c]> (fs s)).
        { pose proof (path_free _ _ (get_unique_filepath_free (fs s) safe_title
                                       base ".webm")) as Hnone. fold p in Hnone.
          destruct Ht as [-> | ->]; [exact Hs3|].
          left. destruct Hs3 as [-> | [c ->]];
            [now apply delete_id | now apply delete_insert_id]. }
        destruct Hback as [-> | [c ->]].
        - left. split; [reflexivity | discriminate].
        - right. exists p, c.
          split; [apply path_free, get_unique_filepath_free|].
          split; [reflexivity | discriminate]. }
      destruct (transport_handler E _ p e1) as [h|] eqn:Hh.
      - intros Hrun.
        destruct (transport_handler_tree _ _ _ _ _ _ _ Hh Hrun) as [Hfs _].
        apply Hkeep. destruct Hfs; auto.
      - intros [= <- <-]. apply Hkeep. now left. }
    destruct (http_get E _ _) as [| |cl body fin];
      [apply Hh; now left | apply Hh; now left|].
    destruct cl as [|z|]; simpl.
    + unfold bind, set_filename, modify. simpl.
      destruct (store_response E p body fin _) as [rs s3] eqn:Hst.
      apply store_response_tree in Hst as (Hfs & _ & _);
        [|apply get_unique_filepath_free].
      destruct rs as [o3|e3]; [discriminate|]. now apply Hh.
    + unfold bind, set_filename, modify. simpl.
      destruct (store_response E p body fin _) as [rs s3] eqn:Hst.
      apply store_response_tree in Hst as (Hfs & _ & _);
        [|apply get_unique_filepath_free].
      destruct rs as [o3|e3]; [discriminate|]. now apply Hh.
    + intros [= <- <-]. left. split; [reflexivity | discriminate].
Qed.

Lemma tree_step_subseteq t t' o : tree_step t t' o -> t ⊆ t'.
Proof.
  intros [[-> _] | (p & c & Hnone & -> & _)]; [reflexivity|].
  now apply insert_subseteq.
Qed.

Lemma for_each_webm_tree safe_title webms : forall s outs s',
  for_each_webm E safe_title webms s = (Ok outs, s') ->
  fs s ⊆ fs s'
  /\ NoDup (map fst (downloaded outs))
  /\ Forall (download_stored (fs s) (fs s')) (downloaded outs).
Proof.
  induction webms as [|webm webms IH]; intros s outs s'; simpl.
  - intros [= <- <-]. split; [reflexivity|]. split; constructor.
  - unfold bind.
    destruct (process_webm_outcome E safe_title webm s) as (o & s1 & Hpw & _).
    rewrite Hpw.
    destruct (for_each_webm E safe_title webms s1) as [[os|e] s2] eqn:Hfe;
      [|discriminate].
    intros [= <- <-].
    apply process_webm_tree in Hpw as Hstep.
    pose proof (tree_step_subseteq _ _ _ Hstep) as Hsub1.
    destruct (IH _ _ _ Hfe) as (Hsub2 & Hnd & Hall).
    split; [now transitivity (fs s1)|].
    assert (Hrest : Forall (download_stored (fs s) (fs s2)) (downloaded os)).
    { eapply List.Forall_impl; [|exact Hall].
      intros [q n] (Hfree & c & Hc & Hlen). split; [|eauto].
      simpl in *. eapply lookup_weaken_None; eassumption. }
    destruct o as [q n| | |]; simpl; try (split; assumption).
    destruct Hstep as [[_ Hno] | (p & c & Hnone & Hfs1 & Hdl)];
      [now destruct (Hno q n)|].
    destruct (Hdl q n eq_refl) as [-> Hlen].
    assert (Hin1 : fs s1 !! p = Some (File c))
      by (rewrite Hfs1; apply lookup_insert_eq).
    split; [|constructor; [|exact Hrest]].
    + constructor; [|exact Hnd].
      intros Hin. apply list_elem_of_fmap in Hin as ([q' n'] & Hq & Hin).
      simpl in Hq. subst q'.
      rewrite List.Forall_forall in Hall.
      apply list_elem_of_In in Hin. destruct (Hall _ Hin) as [Hfree _].
      simpl in Hfree. congruence.
    + split; [exact Hnone|]. exists c. split; [|exact Hlen].
      simpl. eapply lookup_weaken; eassumption.
Qed.

Lemma download_webms_tree thread_data thread_title s r s' :
  download_webms E thread_data thread_title s = (r, s') ->
  fs s ⊆ fs s'
  /\ forall outs, r = Ok (Processed outs) ->
       NoDup (map fst (downloaded outs))
       /\ Forall (download_stored (fs s) (fs s')) (downloaded outs).
Proof.
  unfold download_webms, bind at 1 2, modify.
  rewrite extract_webms_pure.
  destruct (payload_webms thread_data) as [webms|e];
    [|intros [= <- <-]; split; [reflexivity | discriminate]].
  destruct webms as [|webm webms];
    [simpl; intros [= <- <-]; split; [reflexivity | discriminate]|].
  set (ws := webm :: webms).
  unfold bind at 1, try_except, bind at 1. rewrite makedirs_result.
  cbv beta iota zeta.
  change (fs (mkState (fs s) (log s) (requests s) None)) with (fs s).
  set (title := sanitize_filename thread_title).
  destruct (can_makedirs E (fs s) title).
  - unfold ret at 1. cbv beta iota.
    unfold bind at 1, logger, modify. cbv beta iota. unfold bind at 1.
    match goal with
    | |- context [for_each_webm E title ws ?s0] =>
      destruct (for_each_webm E title ws s0) as [[outs|e] s2] eqn:Hfe;
        [apply for_each_webm_tree in Hfe as (Hsub & Hnd & Hall)
        |destruct (for_each_webm_outcomes E title ws s0) as (? & ? & Hx & _);
         congruence]
    end.
    simpl in Hsub, Hall.
    assert (Hmk : fs s ⊆ match fs s !! title with
                         | Some _ => fs s
                         | None => <[title := Dir]> (fs s)
                         end).
    { destruct (fs s !! title) eqn:Ht; [reflexivity | now apply insert_subseteq]. }
    assert (Heq : forall s0 : state,
      fs (match fs s !! title with
          | Some _ => mkState (fs s) (log s) (requests s) None
          | None => set_fs (insert title Dir)
                      (mkState (fs s) (log s) (requests s) None)
          end)
      = match fs s !! title with
        | Some _ => fs s
        | None => <[title := Dir]> (fs s)
        end) by (intros _; destruct (fs s !! title); reflexivity).
    rewrite (Heq s) in Hsub, Hall.
    intros [= <- <-]. split; [now transitivity (match fs s !! title with
                                                | Some _ => fs s
                                                | None => <[title := Dir]> (fs s)
                                                end)|].
    intros outs' [= <-]. split; [exact Hnd|].
    eapply List.Forall_impl; [|exact Hall].
    intros [q n] (Hfree & c & Hc & Hlen). split; [|eauto].
    simpl in *. eapply lookup_weaken_None; eassumption.
  - simpl. destruct (fs s !! title); simpl; intros [= <- <-];
      (split; [reflexivity | discriminate]).
Qed.



(** X11: without other writers, the downloads of one listing go to pairwise
    distinct paths that were free when the call began, and when the call
    returns each of them holds a file of exactly the reported number of
    bytes: two posts with the same name never share a file. *)
Theorem downloads_fresh_distinct (thread_data : json) (thread_title : string)
    (s : state) (outs : list outcome) (s' : state) :
  download_webms E thread_data thread_title s = (Ok (Processed outs), s') ->
  NoDup (map fst (downloaded outs))
  /\ Forall (download_stored (fs s) (fs s')) (downloaded outs).
Proof.
  intros Hdw. apply download_webms_tree in Hdw as [_ H]. now apply H.
Qed.

End TreeFacts.

(** ** More on the completion loop *)

Section SessionMore.

Variable E : env.

Lemma entry_of_flags f en :
  entry_of f en ->
  is_done en = well_fetched f /\ is_errored en = negb (well_fetched f).
Proof.
  intros [_ Hd]. unfold disposition, well_fetched, is_done, is_errored in *.
  destruct (future_payload f) as [thread_data|e]; [|now rewrite Hd].
  destruct (payload_webms thread_data); [|now rewrite Hd].
  destruct Hd as [d ->]. auto.
Qed.

Lemma entries_counts futs entries :
  Forall2 entry_of futs entries ->
  count_done entries = length (List.filter well_fetched futs)
  /\ count_errored entries
     = length (List.filter (fun f => negb (well_fetched f)) futs).
Proof.
  unfold count_done, count_errored.
  induction 1 as [|f en futs entries Hen _ [IH1 IH2]]; [split; reflexivity|].
  apply entry_of_flags in Hen as [Hd He]. simpl. rewrite Hd, He.
  destruct (well_fetched f); simpl; rewrite IH1, IH2; auto.
Qed.

(** X13: the two counters of the summary are fixed by the fetches and by the
    shape of the payloads alone: they do not depend on the order in which
    the futures complete, on what is on disk, or on how any download
    goes. *)
Theorem summary_counts_by_fetch (futs : list future) (s : state) :
  exists t s',
    session E futs s = (Ok t, s')
    /\ successful_downloads t = length (List.filter well_fetched futs)
    /\ failed_downloads t
       = length (List.filter (fun f => negb (well_fetched f)) futs).
Proof.
  destruct (session_entries E futs s) as (entries & s' & Hs & Hall & _).
  eexists _, s'. split; [exact Hs|]. simpl. now apply entries_counts.
Qed.

Lemma entry_of_submit sel en :
  entry_of (submit E sel) en -> entry_of_response E sel en.
Proof.
  intros [Hid Hd]. split; [exact Hid|].
  unfold disposition, submit, get_thread_data, future_payload in Hd.
  simpl in Hd.
  destruct (listing E (fst sel)) as [| |[thread_data|]]; exact Hd.
Qed.

(** X14: from the answer of the listing endpoint to the report: a timeout, a
    transport or HTTP error and a body that is no JSON each end as an
    errored entry of that kind for that listing, one entry per selected
    listing, and the loop goes on. *)
Theorem run_reports_fetch_errors (completed : list (Z * string)) (s : state) :
  exists t s',
    run E completed s = (Ok t, s')
    /\ Forall2 (entry_of_response E) completed (report t).
Proof.
  destruct (session_entries E (map (submit E) completed) s)
    as (entries & s' & Hs & Hall & _).
  eexists _, s'. split; [exact Hs|]. simpl.
  clear Hs. revert entries Hall.
  induction completed as [|sel completed IH]; intros entries Hall;
    inversion Hall; subst; constructor.
  - now apply entry_of_submit.
  - now apply IH.
Qed.

End SessionMore.

(** ** The catalog and the selection *)

Section FrontEnd.

Lemma insert_sorted_spec z l :
  StronglySorted Z.lt l ->
  StronglySorted Z.lt (insert_sorted z l)
  /\ forall x, x ∈ insert_sorted z l <-> x = z \/ x ∈ l.
Proof.
  induction 1 as [|y l Hl IH Hy]; simpl.
  - split; [repeat constructor|]. intros x. rewrite list_elem_of_singleton.
    rewrite elem_of_nil. tauto.
  - destruct IH as [IHs IHe].
    destruct (Z.ltb_spec z y) as [Hlt | Hge].
    + split.
      * constructor; [now constructor|].
        constructor; [exact Hlt|].
        eapply List.Forall_impl; [|exact Hy]. intros a Ha. simpl in *. lia.
      * intros x. rewrite !elem_of_cons. tauto.
    + destruct (Z.eqb_spec z y) as [-> | Hne].
      * split; [now constructor|]. intros x. rewrite !elem_of_cons. tauto.
      * split.
        -- constructor; [exact IHs|].
           apply List.Forall_forall. intros a Ha.
           apply list_elem_of_In, IHe in Ha as [-> | Ha]; [lia|].
           rewrite List.Forall_forall in Hy. apply Hy.
           now apply list_elem_of_In.
        -- intros x. rewrite !elem_of_cons, IHe. tauto.
Qed.

(** [sorted_set] is [sorted(set(...))]: strictly increasing, with the
    elements of the argument. *)
Lemma sorted_set_spec l :
  StronglySorted Z.lt (sorted_set l)
  /\ forall x, x ∈ sorted_set l <-> x ∈ l.
Proof.
  induction l as [|z l [IHs IHe]]; simpl.
  - split; [constructor | reflexivity].
  - destruct (insert_sorted_spec z _ IHs) as [Hs He].
    split; [exact Hs|]. intros x. rewrite He, elem_of_cons, IHe. tauto.
Qed.

(** Strictly increasing valid indices pick a sub-sequence. *)
Lemma pick_sorted {A : Type} (cl : list Z) : forall (l : list A) (k : Z),
  StronglySorted Z.lt cl ->
  Forall (fun c => (k <= c < k + Z.of_nat (length l))%Z) cl ->
  exists sel,
    Forall2 (fun c y => (k <= c)%Z /\ l !! Z.to_nat (c - k) = Some y) cl sel
    /\ sel `sublist_of` l.
Proof.
  induction cl as [|c cl IH]; intros l k Hs Hr.
  - exists []. split; [constructor | apply sublist_nil_l].
  - apply StronglySorted_inv in Hs as [Hs Hc].
    apply Forall_cons in Hr as [Hc0 Hr].
    destruct (lookup_lt_is_Some_2 l (Z.to_nat (c - k))) as [x Hx]; [lia|].
    destruct (IH (drop (S (Z.to_nat (c - k))) l) (c + 1)%Z Hs) as (sel & Hall & Hsub).
    { rewrite List.Forall_forall in Hc, Hr. apply List.Forall_forall.
      intros c' Hin. specialize (Hc _ Hin). specialize (Hr _ Hin). simpl in *.
      rewrite length_drop. lia. }
    exists (x :: sel). split.
    + constructor; [split; [lia | exact Hx]|].
      eapply Forall2_impl; [exact Hall|].
      intros c' y [Hle Hy]. split; [lia|].
      rewrite lookup_drop in Hy. rewrite <- Hy. f_equal. lia.
    + rewrite <- (take_drop_middle l _ x Hx).
      apply sublist_inserts_l. now apply sublist_skip.
Qed.

Lemma py_index_in_range {A : Type} (l : list A) (c : Z) :
  (0 <= c < Z.of_nat (length l))%Z -> py_index l c = l !! Z.to_nat c.
Proof.
  intros Hc. unfold py_index.
  destruct (Z.leb_spec 0 c); [|lia]. destruct (Z.ltb_spec c (Z.of_nat (length l)));
    [reflexivity | lia].
Qed.

Lemma filter_out_of_range_nil threads cl :
  List.filter (out_of_range (Z.of_nat (length threads) - 1)) cl = [] <->
  Forall (in_range threads) cl.
Proof.
  induction cl as [|c cl IH]; simpl; [split; [constructor | reflexivity]|].
  rewrite Forall_cons, <- IH.
  destruct (out_of_range (Z.of_nat (length threads) - 1) c) eqn:Ho;
    unfold out_of_range, in_range in *.
  - apply orb_true_iff in Ho. rewrite !Z.ltb_lt in Ho.
    split; [discriminate|]. intros [Hc _]. lia.
  - apply orb_false_iff in Ho. rewrite !Z.ltb_ge in Ho.
    split; [intros Hf; split; [lia | exact Hf] | tauto].
Qed.

(** The cases of [choose], for the statements below. *)
Lemma choose_cases (threads : list (json * json * json)) (cl : list Z) :
  match choose threads cl with
  | NoValidChoice => cl = []
  | InvalidChoices invalid max_index =>
    max_index = (Z.of_nat (length threads) - 1)%Z
    /\ invalid = List.filter (out_of_range max_index) cl
    /\ Exists (fun c => ~ in_range threads c) cl
  | IndexCrash => False
  | Chosen cl' selected =>
    cl <> []
    /\ Forall (in_range threads) cl
    /\ StronglySorted Z.lt cl'
    /\ (forall c, c ∈ cl' <-> c ∈ cl)
    /\ length selected = length cl'
    /\ selected `sublist_of` map id_and_title threads
  end.
Proof.
  unfold choose. destruct cl as [|c0 cl0]; [reflexivity|].
  set (cl := c0 :: cl0).
  destruct (List.filter _ cl) as [|i inv] eqn:Hf.
  - apply filter_out_of_range_nil in Hf.
    destruct (sorted_set_spec cl) as [Hs He].
    destruct (pick_sorted (sorted_set cl) (map id_and_title threads) 0 Hs)
      as (sel & Hall & Hsub).
    { apply List.Forall_forall. intros c Hc.
      apply list_elem_of_In, He in Hc. rewrite length_map.
      rewrite Forall_forall in Hf. specialize (Hf c Hc).
      unfold in_range in Hf. lia. }
    assert (Hm : mapM (fun choice =>
                         match py_index threads choice with
                         | Some thread => Some (snd (fst thread), fst (fst thread))
                         | None => None
                         end) (sorted_set cl) = Some sel).
    { apply mapM_Some. eapply Forall2_impl; [exact Hall|].
      intros c y [Hle Hy].
      assert (Hin : in_range threads c).
      { apply lookup_lt_Some in Hy. rewrite length_map in Hy.
        unfold in_range. lia. }
      rewrite (py_index_in_range _ _ Hin).
      rewrite Z.sub_0_r, list_lookup_fmap in Hy.
      destruct (threads !! Z.to_nat c); simpl in *;
        unfold id_and_title in *; congruence. }
    rewrite Hm. split; [discriminate|]. split; [exact Hf|].
    split; [exact Hs|]. split; [exact He|].
    split; [|exact Hsub]. symmetry. exact (Forall2_length _ _ _ Hall).
  - split; [reflexivity|]. split; [symmetry; exact Hf|].
    apply not_Forall_Exists; [intros c; unfold in_range; apply _|].
    intros Hall. apply filter_out_of_range_nil in Hall. congruence.
Qed.

(** X15: the selection of lines 221-236. Nothing is chosen unless every number
    is a valid index: a single number out of range, negative ones
    included, rejects the whole input. What is chosen is the distinct
    numbers in increasing order, so each thread at most once and in
    catalog order; the comprehension of line 234 never raises
    IndexError. *)
Theorem choose_spec (threads : list (json * json * json)) (cl : list Z) :
  match choose threads cl with
  | NoValidChoice => cl = []
  | InvalidChoices invalid max_index =>
    max_index = (Z.of_nat (length threads) - 1)%Z
    /\ invalid = List.filter (out_of_range max_index) cl
    /\ Exists (fun c => ~ in_range threads c) cl
  | IndexCrash => False
  | Chosen cl' selected =>
    cl <> []
    /\ Forall (in_range threads) cl
    /\ StronglySorted Z.lt cl'
    /\ (forall c, c ∈ cl' <-> c ∈ cl)
    /\ length selected = length cl'
    /\ selected `sublist_of` map id_and_title threads
  end.
Proof. exact (choose_cases threads cl). Qed.

Lemma map_result_dicts {B : Type} (f : dict -> B) (g : json -> result B)
    (ds : list dict) :
  (forall d, g (JObj d) = Ok (f d)) ->
  map_result g (map JObj ds) = Ok (map f ds).
Proof.
  intros Hg. induction ds as [|d ds IH]; [reflexivity|].
  simpl. now rewrite Hg, IH.
Qed.

(** X16: on a catalog that is a list of page dicts, each with a list of
    thread dicts under threads (or without that key: no thread), the
    comprehension of lines 185-188 flattens the pages in order; a missing
    semantic_url, no or images takes its default. *)
Theorem catalog_threads_well_formed (pages : list dict)
    (tss : list (list dict)) :
  Forall2 (fun page ts =>
             dict_get_default page "threads" (JArr []) = JArr (map JObj ts))
          pages tss ->
  catalog_threads (JArr (map JObj pages))
  = Ok (List.concat (map (map thread_entry) tss)).
Proof.
  intros Hall. unfold catalog_threads. simpl.
  assert (Hp : map_result page_threads (map JObj pages)
               = Ok (map (map thread_entry) tss)).
  { induction Hall as [|page ts pages tss Hpage _ IH]; [reflexivity|].
    simpl. rewrite Hpage. simpl.
    rewrite (map_result_dicts thread_entry thread_tuple ts) by reflexivity.
    now rewrite IH. }
  now rewrite Hp.
Qed.


(** X18: whenever [main] goes on to the download phase, the selected
    (id, title) pairs are a non-empty sub-sequence of the catalog's
    threads without the first one: each thread at most once, in catalog
    order, whatever the order and repetitions typed. *)
Theorem selection_in_catalog_order (py_int : string -> option Z)
    (catalog : listing_response) (console : option (list string))
    (lg : list front_entry) (selected : list (json * json)) :
  main_front py_int catalog console = (lg, Proceed selected) ->
  exists pages all_threads,
    catalog = ListingText (Some pages)
    /\ catalog_threads pages = Ok all_threads
    /\ selected <> []
    /\ selected `sublist_of` map id_and_title (tail all_threads).
Proof.
  unfold main_front.
  destruct catalog as [| |[pages|]]; simpl; try discriminate.
  destruct (catalog_threads pages) as [all|e] eqn:Hcat; simpl; [|discriminate].
  destruct (tail all) as [|t threads] eqn:Ht; simpl; [discriminate|].
  destruct console as [[|tok tokens]|]; simpl; try discriminate.
  destruct (parse_choices py_int tokens) as [warnings choice_list].
  set (cl := match py_int tok with
             | Some num => (warnings, num :: choice_list)
             | None => (LogInvalidChoiceFormat tok :: warnings, choice_list)
             end).
  destruct cl as [w cl'].
  pose proof (choose_cases (t :: threads) cl') as Hc.
  destruct (choose (t :: threads) cl') as [| | |cl'' sel]; simpl; try discriminate.
  intros [= <- <-].
  destruct Hc as (Hne & _ & _ & He & Hlen & Hsub).
  exists pages, all. split; [reflexivity|]. split; [exact Hcat|].
  rewrite Ht. split; [|exact Hsub].
  intros ->. simpl in Hlen.
  destruct cl' as [|c cl']; [congruence|].
  destruct cl'' as [|c'' cl'']; [|discriminate].
  specialize (He c). rewrite elem_of_nil, elem_of_cons in He. tauto.
Qed.

End FrontEnd.

(** ** Instances of the further properties *)

Section MoreExamples.

Lemma sanitize_filename_safe_name_witness :
  sanitize_filename "clip 01.final" = "clip 01.final".
Proof.
  apply sanitize_filename_safe_name.
  - discriminate.
  - simpl. lia.
  - repeat constructor.
  - intros c [= <-]. reflexivity.
  - intros c [= <-]. reflexivity.
Defined.

Lemma sanitize_filename_wrapped_dots_witness :
  sanitize_filename (str ["001"; "."; "."; "031"]%char) = "..".
Proof.
  apply (sanitize_filename_wrapped_dots "001" "031" ["."; "."]%char).
  - reflexivity.
  - reflexivity.
  - repeat constructor.
  - discriminate.
  - simpl. lia.
Defined.

Lemma extract_webms_filter_witness :
  payload_webms (payload [post_a (JNum 1); post_jpg; post_a (JNum 2)])
  = Ok [post_a (JNum 1); post_a (JNum 2)].
Proof.
  exact (extract_webms_filter
           [("posts", JArr (map JObj [post_a (JNum 1); post_jpg; post_a (JNum 2)]))]
           [post_a (JNum 1); post_jpg; post_a (JNum 2)] eq_refl).
Defined.

Lemma malformed_post_aborts_listing_witness :
  fst (download_webms env_ok
         (JObj [("posts", JArr [JObj (post_a (JNum 1)); JNum 5])]) "t" (initial ∅))
  = Raise AttributeError
  /\ fs (snd (download_webms env_ok
                (JObj [("posts", JArr [JObj (post_a (JNum 1)); JNum 5])]) "t"
                (initial ∅))) = ∅.
Proof.
  destruct (malformed_post_aborts_listing env_ok
              [("posts", JArr [JObj (post_a (JNum 1)); JNum 5])]
              [JObj (post_a (JNum 1)); JNum 5] "t" (initial ∅) eq_refl)
    as (H1 & H2 & _).
  - right. left. reflexivity.
  - split; [exact H1 | exact H2].
Defined.

Lemma no_webms_no_directory_witness :
  download_webms env_ok (payload [post_jpg]) "t" (initial ∅)
  = (Ok NoWebms, mkState ∅ [LogNoWebms "t"] [] None).
Proof.
  exact (no_webms_no_directory env_ok (payload [post_jpg]) "t" (initial ∅) eq_refl).
Defined.

Lemma first_failure_unbound_filename_witness :
  fst (process_webm env_timeout "t" (post_a (JNum 1)) (initial tree_t))
  = Ok (Failed UnboundLocalError)
  /\ log (snd (process_webm env_timeout "t" (post_a (JNum 1)) (initial tree_t)))
     = [LogTimeout (file_url (JNum 1)); LogUnexpected UnboundLocalError].
Proof.
  destruct (first_failure_unbound_filename env_timeout "t" (post_a (JNum 1))
              (initial tree_t) "a" eq_refl eq_refl eq_refl (or_introl eq_refl))
    as (H1 & H2 & _).
  split; [exact H1 | exact H2].
Defined.

Lemma failed_request_removes_foreign_file_witness :
  interfere env_timeout_racing 0 tree_t !! "t/a.webm" = Some (File ["o"%byte])
  /\ fst (process_webm env_timeout_racing "t" (post_a (JNum 1)) state_bound)
     = Ok (Failed Timeout)
  /\ fs (snd (process_webm env_timeout_racing "t" (post_a (JNum 1)) state_bound))
       !! "t/a.webm" = None.
Proof.
  split; [vm_compute; reflexivity|].
  destruct (failed_request_removes_foreign_file env_timeout_racing "t"
              (post_a (JNum 1)) state_bound "a" "b.webm" ["o"%byte]
              eq_refl eq_refl eq_refl (or_introl eq_refl))
    as (H1 & H2).
  - vm_compute. reflexivity.
  - reflexivity.
  - split; [exact H1|]. rewrite H2. apply lookup_delete_eq.
Defined.


Lemma downloads_fresh_distinct_witness :
  NoDup ["t/a.webm"; "t/a_1.webm"]
  /\ Forall (download_stored ∅
               (fs (snd (download_webms env_ok (payload same_name_posts) "t"
                           (initial ∅)))))
       [("t/a.webm", 1); ("t/a_1.webm", 1)].
Proof.
  apply (downloads_fresh_distinct env_ok (fun _ _ => eq_refl)
           (payload same_name_posts) "t" (initial ∅)
           [Downloaded "t/a.webm" 1; Downloaded "t/a_1.webm" 1]).
  vm_compute. reflexivity.
Defined.

Lemma catalog_threads_well_formed_witness :
  catalog_threads (JArr (map JObj catalog_pages))
  = Ok [thread_entry (thread_of 10 "sticky"); thread_entry (thread_of 11 "one");
        thread_entry (thread_of 12 "two"); thread_entry (thread_of 13 "three")].
Proof.
  apply (catalog_threads_well_formed catalog_pages
           [[thread_of 10 "sticky"; thread_of 11 "one"];
            [thread_of 12 "two"; thread_of 13 "three"]]).
  repeat constructor.
Defined.

Lemma selection_in_catalog_order_witness :
  main_front digit_int (ListingText (Some (JArr (map JObj catalog_pages))))
    (Some ["2"; "x"; "0"; "2"])
  = ([LogFetchingCatalog; LogInvalidChoiceFormat "x"; LogUserSelected [0; 2]%Z],
     Proceed [(JNum 11, JStr "one"); (JNum 13, JStr "three")])
  /\ exists pages all_threads,
       ListingText (Some (JArr (map JObj catalog_pages))) = ListingText (Some pages)
       /\ catalog_threads pages = Ok all_threads
       /\ [(JNum 11, JStr "one"); (JNum 13, JStr "three")] <> []
       /\ [(JNum 11, JStr "one"); (JNum 13, JStr "three")]
            `sublist_of` map id_and_title (tail all_threads).
Proof.
  split; [reflexivity|].
  apply (selection_in_catalog_order digit_int _ (Some ["2"; "x"; "0"; "2"])
           [LogFetchingCatalog; LogInvalidChoiceFormat "x"; LogUserSelected [0; 2]%Z]).
  reflexivity.
Defined.

End MoreExamples.
